(** * MOOD splitters: a shallow embedding of [mood/splitter.py]

    The models come first:

    - [Numpy]: the array primitives the splitters call ([np.unique],
      [np.flatnonzero], [np.tril_indices_from], [np.argsort], [np.argmax],
      [ndarray.mean(axis=0)]); a double is the rational it denotes, so
      comparisons are exact, and the mean is computed with the roundings
      of IEEE 754 binary64 ([Double]);
    - [Perimeter]: [PerimeterSplit._iter_indices];
    - [MaxDissimilarity]: [MaxDissimilaritySplit._iter_indices];
    - [Clustering]: what a well-formed clustering result is, and the
      predicates the properties are stated with;
    - [Prescriber]: [SplitCharacterization], the state of a [MOODSplitter],
      its accessors and its [fit], with the calls into scikit-learn, scipy,
      numpy, pandas and the plotting code as parameters.

    The properties follow, one block per model.

    Clustering ([MiniBatchKMeans]), the de-duplication of the centres
    ([np.unique(centers, axis=0, return_inverse=True)]) and
    [pairwise_distances] are library calls: a trial is modelled as a function
    of their results, the per-sample group index [group_indices] and the
    matrix [distance_matrix] of the distances between the distinct centres. *)

From Stdlib Require Import QArith Lqa Reals Lra Lia String SpecFloat.
From stdpp Require Import base option list sorting strings gmap sets.

Local Open Scope nat_scope.

(** ** Double precision *)
Module Double.

(** IEEE 754 binary64: 53 bits of mantissa, infinities at exponent 1024.
    The operations are those of the Standard Library's specification of
    floating-point arithmetic, which round to nearest, ties to even. *)
Definition prec : Z := 53.
Definition emax : Z := 1024.

(** The double nearest to a rational: the rational itself when it is a
    double.  A dyadic rational is rounded once; any other one is the
    rounded quotient of its rounded numerator and denominator. *)
Definition of_Q (q : Q) : spec_float :=
  let d := Zpos (Qden q) in
  if (2 ^ Z.log2 d =? d)%Z
  then binary_normalize prec emax (Qnum q) (- Z.log2 d) false
  else SFdiv prec emax (binary_normalize prec emax (Qnum q) 0 false)
                       (binary_normalize prec emax d 0 false).

(** The rational a double denotes.  The infinities sit beyond every finite
    double, and NaN above them all: that is where [np.argmax], which
    returns the first NaN of an array, puts it. *)
Definition to_Q (x : spec_float) : Q :=
  match x with
  | S754_zero _ => 0
  | S754_finite s m e =>
      (if s then - inject_Z (Zpos m) else inject_Z (Zpos m)) * Qpower 2 e
  | S754_infinity s => if s then - Qpower 2 1024 else Qpower 2 1024
  | S754_nan => Qpower 2 1025
  end%Q.


(** [np.add.reduce] along the first axis adds the rows one after the
    other; every addition rounds. *)
Definition sum (l : list Q) : spec_float :=
  foldl (SFadd prec emax) (S754_zero false) (of_Q <$> l).

(** The mean of an array: its rounded sum divided by its length, rounded. *)
Definition mean (l : list Q) : Q :=
  to_Q (SFdiv prec emax (sum l)
          (binary_normalize prec emax (Z.of_nat (length l)) 0 false)).

End Double.

(** ** Array primitives *)
Module Numpy.

(** [np.flatnonzero(group_indices == g)]: the positions holding [g],
    ascending. *)
Definition flatnonzero_eq (group_indices : list nat) (g : nat) : list nat :=
  filter (λ s, group_indices !! s = Some g) (seq 0 (length group_indices)).

(** [np.unique] of an array of group indices: its distinct values,
    ascending. *)
Definition unique (l : list nat) : list nat :=
  filter (λ g, g ∈ l) (seq 0 (S (max_list l))).

(** [np.tril_indices_from(m, k=-1)] for an [n]x[n] matrix: the
    coordinates strictly below the diagonal, row by row.  numpy returns the
    row and the column coordinates as two arrays read at the same position;
    here one list of pairs. *)
Definition tril_indices (n : nat) : list (nat * nat) :=
  i ← seq 0 n; (λ j, (i, j)) <$> seq 0 i.

(** [m[i, j]]; [None] stands for the [IndexError]. *)
Definition get2 (m : list (list Q)) (i j : nat) : option Q :=
  row ← m !! i; row !! j.

(** [np.argsort]: the positions of [v] by ascending value.  Positions of
    equal values stay in their order (numpy leaves that open for its
    default sort; the properties below hold for every order of the
    ties). *)
Fixpoint insert_by_value (x : nat * Q) (l : list (nat * Q)) : list (nat * Q) :=
  match l with
  | [] => [x]
  | y :: l' => if Qle_bool x.2 y.2 then x :: l else y :: insert_by_value x l'
  end.

Definition argsort (v : list Q) : list nat :=
  fst <$> foldr insert_by_value [] (zip (seq 0 (length v)) v).

(** [np.argmax]: the first position of the largest value; [None] stands
    for the [ValueError] on an empty array. *)
Fixpoint argmax_from (best_i : nat) (best : Q) (i : nat) (l : list Q) : nat :=
  match l with
  | [] => best_i
  | x :: l' =>
      if Qle_bool x best then argmax_from best_i best (S i) l'
      else argmax_from i x (S i) l'
  end.

Definition argmax (l : list Q) : option nat :=
  match l with
  | [] => None
  | x :: l' => Some (argmax_from 0 x 1 l')
  end.


(** Column [j] of a matrix, [m[:, j]]; a missing entry reads as 0. *)
Definition column (m : list (list Q)) (j : nat) : list Q :=
  (λ row, default 0%Q (row !! j)) <$> m.

(** [m.mean(axis=0)]: the mean of every column, in double precision. *)
Definition mean_axis0 (m : list (list Q)) : list Q :=
  (λ j, Double.mean (column m j)) <$> seq 0 (length (default [] (head m))).

End Numpy.

(** ** [PerimeterSplit] *)
Module Perimeter.
Import Numpy.

(** The loop over [maximum_distance_indices] (source lines 394-410), on
    the pair [(test_indices, remaining)].  [None] stands for an
    [IndexError] of one of the lookups. *)
Fixpoint scan_pairs (n_test : nat) (group_indices groups_set : list nat)
    (tril : list (nat * nat)) (order : list nat)
    (test_indices : list nat) (remaining : gset nat)
    : option (list nat * gset nat) :=
  match order with
  | [] => Some (test_indices, remaining)
  | pos :: order' =>
      if decide (n_test ≤ length test_indices) then
        Some (test_indices, remaining)
      else
        '(i, j) ← tril !! pos;
        if decide (i ∈ remaining ∧ j ∈ remaining) then
          let remaining := remaining ∖ {[i]} in
          gi ← groups_set !! i;
          let test_indices := test_indices ++ flatnonzero_eq group_indices gi in
          let remaining := remaining ∖ {[j]} in
          gj ← groups_set !! j;
          let test_indices := test_indices ++ flatnonzero_eq group_indices gj in
          scan_pairs n_test group_indices groups_set tril order'
            test_indices remaining
        else
          scan_pairs n_test group_indices groups_set tril order'
            test_indices remaining
  end.

(** The loop building [train_indices] from [remaining] (lines 412-414). *)
Fixpoint collect_train (group_indices groups_set : list nat)
    (remaining : list nat) (train_indices : list nat) : option (list nat) :=
  match remaining with
  | [] => Some train_indices
  | i :: remaining' =>
      gi ← groups_set !! i;
      collect_train group_indices groups_set remaining'
        (train_indices ++ flatnonzero_eq group_indices gi)
  end.

(** [maximum_distance_indices] (lines 388-389). *)
Definition maximum_distance_indices (distance_matrix : list (list Q))
    : option (list nat) :=
  vals ← mapM (λ ij, get2 distance_matrix ij.1 ij.2)
            (tril_indices (length distance_matrix));
  Some (reverse (argsort vals)).

(** The state [(test_indices, remaining)] when the scan ends. *)
Definition scan (n_test : nat) (group_indices : list nat)
    (distance_matrix : list (list Q)) : option (list nat * gset nat) :=
  let groups_set := unique group_indices in
  order ← maximum_distance_indices distance_matrix;
  scan_pairs n_test group_indices groups_set
    (tril_indices (length distance_matrix)) order [] (list_to_set groups_set).

(** One trial: the body of the [for i in range(self.n_splits)] loop from
    line 380 on, returning [(train_indices, test_indices)]. *)
Definition trial (n_test : nat) (group_indices : list nat)
    (distance_matrix : list (list Q)) : option (list nat * list nat) :=
  '(test_indices, remaining) ← scan n_test group_indices distance_matrix;
  train_indices ← collect_train group_indices (unique group_indices)
                    (elements remaining) [];
  Some (train_indices, test_indices).

(** [_iter_indices]: one trial per clustering [clustering i], the
    de-duplicated result of [compute_kmeans_clustering] with
    [random_state_offset = i]. *)
Definition _iter_indices (n_splits n_test : nat)
    (clustering : nat → list nat * list (list Q))
    : list (option (list nat * list nat)) :=
  (λ i, trial n_test (clustering i).1 (clustering i).2) <$> seq 0 n_splits.

End Perimeter.

(** ** [MaxDissimilaritySplit] *)
Module MaxDissimilarity.
Import Numpy.

(** The two anchors (lines 472 and 476): [test_idx] and [train_idx]. *)
Definition anchors (distance_matrix : list (list Q)) : option (nat * nat) :=
  test_idx ← argmax (mean_axis0 distance_matrix);
  row ← distance_matrix !! test_idx;
  train_idx ← argmax row;
  Some (test_idx, train_idx).

(** The initial [(train_indices, test_indices)] (lines 478-479). *)
Definition seed (group_indices groups_set : list nat) (test_idx train_idx : nat)
    : option (list nat * list nat) :=
  g_train ← groups_set !! train_idx;
  g_test ← groups_set !! test_idx;
  Some (flatnonzero_eq group_indices g_train,
        flatnonzero_eq group_indices g_test).

(** The loop over [sorted_groups] (lines 484-492), on [train_indices]. *)
Fixpoint grow_train (n_train : nat) (group_indices groups_set : list nat)
    (train_idx test_idx : nat) (sorted_groups : list nat)
    (train_indices : list nat) : option (list nat) :=
  match sorted_groups with
  | [] => Some train_indices
  | group_idx :: sorted_groups' =>
      if decide (n_train ≤ length train_indices) then Some train_indices
      else if decide (group_idx = train_idx ∨ group_idx = test_idx) then
        grow_train n_train group_indices groups_set train_idx test_idx
          sorted_groups' train_indices
      else
        g ← groups_set !! group_idx;
        grow_train n_train group_indices groups_set train_idx test_idx
          sorted_groups' (train_indices ++ flatnonzero_eq group_indices g)
  end.

(** One trial: the body of the [for i in range(self.n_splits)] loop from
    line 463 on.  The order in which Python lists the set
    [remaining_groups] is not fixed; here it is the order of [elements]. *)
Definition trial (n_train : nat) (group_indices : list nat)
    (distance_matrix : list (list Q)) : option (list nat * list nat) :=
  let n_samples := length group_indices in
  let groups_set := unique group_indices in
  '(test_idx, train_idx) ← anchors distance_matrix;
  '(train_indices, test_indices) ←
    seed group_indices groups_set test_idx train_idx;
  row ← distance_matrix !! train_idx;
  train_indices ←
    grow_train n_train group_indices groups_set train_idx test_idx
      (argsort row) train_indices;
  let remaining_groups : gset nat :=
    list_to_set (seq 0 n_samples) ∖ list_to_set train_indices
      ∖ list_to_set test_indices in
  Some (train_indices, test_indices ++ elements remaining_groups).

(** [_iter_indices]: one trial per clustering, as for [PerimeterSplit]. *)
Definition _iter_indices (n_splits n_train : nat)
    (clustering : nat → list nat * list (list Q))
    : list (option (list nat * list nat)) :=
  (λ i, trial n_train (clustering i).1 (clustering i).2) <$> seq 0 n_splits.

End MaxDissimilarity.

(** ** Well-formed clustering results *)
Module Clustering.
Import Numpy.

(** The contract of [np.unique(..., return_inverse=True)]: with [M]
    distinct centres, the inverse array takes exactly the values
    [0 .. M-1]. *)
Definition dedup_inverse (M : nat) (group_indices : list nat) : Prop :=
  Forall (λ g, g < M) group_indices ∧
  Forall (λ g, g ∈ group_indices) (seq 0 M).

(** The shape of [pairwise_distances(centers)]: [M] rows of [M] entries. *)
Definition square (M : nat) (distance_matrix : list (list Q)) : Prop :=
  length distance_matrix = M ∧
  Forall (λ row, length row = M) distance_matrix.

(** The diagonal of a distance matrix is zero. *)
Definition zero_diagonal (distance_matrix : list (list Q)) : Prop :=
  Forall (λ g, (default 0 (get2 distance_matrix g g) == 0)%Q)
    (seq 0 (length distance_matrix)).

(** Distinct centres lie at a positive distance from one another. *)
Definition positive_off_diagonal (distance_matrix : list (list Q)) : Prop :=
  ∀ i j x, i ≠ j → get2 distance_matrix i j = Some x → (0 < x)%Q.


(** The samples of group [g]. *)
Definition members (group_indices : list nat) (g : nat) : list nat :=
  flatnonzero_eq group_indices g.

(** The loop invariant of the scan: the test indices are, without
    repetition, the samples whose group has left [remaining]. *)
Definition scan_inv (M : nat) (gi : list nat)
    (test_indices : list nat) (remaining : gset nat) : Prop :=
  NoDup test_indices ∧
  (∀ g, g ∈ remaining → g < M) ∧
  (∀ s, s ∈ test_indices ↔ ∃ g, gi !! s = Some g ∧ g ∉ remaining).

(** How the scan has extended [test0]: not at all, or last by the two
    groups of a pair that was assigned below the target. *)
Definition last_pair (M n_test : nat) (gi : list nat)
    (test0 test_indices : list nat) : Prop :=
  test_indices = test0 ∨
  ∃ before i j, i ≠ j ∧ i < M ∧ j < M ∧ length before < n_test ∧
    test_indices = before ++ members gi i ++ members gi j.

(** The bound of the specification: the test array exceeds the target by at
    most the size of one cluster. *)
Definition overshoot_within_one_cluster (M n_test : nat) (gi : list nat)
    (test_indices : list nat) : Prop :=
  ∃ g, g < M ∧ length test_indices ≤ n_test + length (members gi g).

End Clustering.

(** ** Exceptions *)

Inductive exn : Type :=
  | RuntimeError (msg : string)
  | TypeError (msg : string)
  | ValueError
  | LinAlgError
  | IndexError
  | KeyError
  | LibraryError (code : nat).

(** The outcome of a call: a value, or a raised exception. *)
Inductive result (A : Type) : Type :=
  | Ok (a : A)
  | Raise (e : exn).
Arguments Ok {A} a.
Arguments Raise {A} e.

#[export] Instance result_ret : MRet result := @Ok.
#[export] Instance result_bind : MBind result := λ A B k r,
  match r with Ok a => k a | Raise e => Raise e end.
#[export] Instance result_fmap : FMap result := λ A B f r,
  match r with Ok a => Ok (f a) | Raise e => Raise e end.

(** ** [SplitCharacterization] and [MOODSplitter] *)
Module Prescriber.
Local Open Scope R_scope.

(** A float: the real number a double denotes, or [None] for [nan]. *)
Definition float : Type := option R.

Record SplitCharacterization : Type := {
  distances : list R;
  representativeness : float;
  label : string;
}.

(** [a < b] and [a == b] on floats; a comparison with [nan] is false. *)
Definition float_lt (a b : float) : bool :=
  match a, b with
  | Some x, Some y => if Rlt_dec x y then true else false
  | _, _ => false
  end.

Definition float_eqb (a b : float) : bool :=
  match a, b with
  | Some x, Some y => if Req_dec_T x y then true else false
  | _, _ => false
  end.

(** [SplitCharacterization.__eq__] (lines 89-90). *)
Definition __eq__ (self other : SplitCharacterization) : bool :=
  bool_decide (label self = label other)
  && float_eqb (representativeness self) (representativeness other).

(** [SplitCharacterization.best]: [max] keeps the first of the largest. *)
Definition best (splits : list SplitCharacterization)
    : result SplitCharacterization :=
  match splits with
  | [] => Raise ValueError
  | spl :: splits' =>
      Ok (foldl (λ cur spl,
                   if float_lt (representativeness cur) (representativeness spl)
                   then spl else cur) spl splits')
  end.

(** The table [as_dataframe] returns, column by column. *)
Record DataFrame : Type := {
  column_split : list string;
  column_representativeness : list float;
  column_best : list bool;
  column_rank : list float;
}.

Section model.
(** The rows of the feature matrix [X] and the figure [visualize] draws
    are opaque. *)
Context {Row Axes : Type}.

(** A candidate splitter ([BaseShuffleSplit]): its number of trials and the
    trials [split(X, y, groups)] generates, each a pair of index arrays or an
    exception raised when the trial is drawn. *)
Record Splitter : Type := {
  get_n_splits : nat;
  split : list Row → list (result (list nat * list nat));
}.

(** The library calls.

    [knn_mean_distance]:
    [NearestNeighbors(n_neighbors=k, metric=metric, p=p).fit(X_to)]
    followed by [kneighbors(X_from)] and the mean over the neighbours, with
    [X_from = None] a legal argument.

    [score_representativeness] (lines 159-173) consists of
    [scipy.stats.gaussian_kde], [np.linspace] and
    [scipy.spatial.distance.jensenshannon] on doubles; what it returns
    depends on their roundings, so it is taken as it is: a function of the
    two samples that returns a float or raises.

    [np_mean]: [np.mean] of a list of floats, in double precision.

    [rank]: [Series.rank(ascending=False)] of pandas.

    [visualize] (lines 141-157) consists of plotting calls of seaborn and of
    [mood.visualize] and [mood.utils]. *)
Variable knn_mean_distance :
  string → nat → nat → option (list Row) → list Row → result (list R).
Variable score_representativeness : list R → list R → result float.
Variable np_mean : list float → float.
Variable rank : list float → result (list float).
Variable visualize : list R → list SplitCharacterization → result Axes.

(** [SplitCharacterization.concat] (lines 58-66). *)
Definition concat (splits : list SplitCharacterization)
    : result SplitCharacterization :=
  match remove_dups (label <$> splits) with
  | [name] =>
      Ok {| distances := mjoin (distances <$> splits);
            representativeness := np_mean (representativeness <$> splits);
            label := name |}
  | _ => Raise (RuntimeError
           "Can only concatenate equally labeled split characterizations")
  end.

(** [SplitCharacterization.as_dataframe] (lines 72-87): one row per
    characterization, then the column of ranks. *)
Definition as_dataframe (splits : list SplitCharacterization)
    : result DataFrame :=
  chosen ← best splits;
  ranks ← rank (representativeness <$> splits);
  Ok {| column_split := label <$> splits;
        column_representativeness := representativeness <$> splits;
        column_best := (λ spl, __eq__ spl chosen) <$> splits;
        column_rank := ranks |}.

Record MOODSplitter : Type := {
  _n_splits : nat;
  _p : nat;
  _k : nat;
  _metric : string;
  _splitters : list (string * Splitter);
  _downstream_distances : option (list R);
  _split_chars : option (list SplitCharacterization);
  _prescribed_splitter_label : option string;
}.

Definition set_downstream_distances (d : list R) (self : MOODSplitter)
    : MOODSplitter :=
  {| _n_splits := _n_splits self; _p := _p self; _k := _k self;
     _metric := _metric self; _splitters := _splitters self;
     _downstream_distances := Some d;
     _split_chars := _split_chars self;
     _prescribed_splitter_label := _prescribed_splitter_label self |}.

Definition set_prescription (split_chars : list SplitCharacterization)
    (chosen : string) (self : MOODSplitter) : MOODSplitter :=
  {| _n_splits := _n_splits self; _p := _p self; _k := _k self;
     _metric := _metric self; _splitters := _splitters self;
     _downstream_distances := _downstream_distances self;
     _split_chars := Some split_chars;
     _prescribed_splitter_label := Some chosen |}.

(** [MOODSplitter.__init__] (lines 107-139).  The dictionary [splitters]
    is the list of its items in insertion order; that every candidate is a
    [BaseShuffleSplit] is the type of the list. *)
Definition __init__ (splitters : list (string * Splitter))
    (downstream_distances : option (list R)) (metric : string) (p k : nat)
    : result MOODSplitter :=
  let n_splits_per_splitter := (λ item, get_n_splits item.2) <$> splitters in
  if decide (length (remove_dups n_splits_per_splitter) = 1%nat) then
    match n_splits_per_splitter with
    | [] => Raise IndexError
    | n :: _ =>
        Ok {| _n_splits := n; _p := p; _k := k; _metric := metric;
              _splitters := splitters;
              _downstream_distances := downstream_distances;
              _split_chars := None;
              _prescribed_splitter_label := None |}
    end
  else Raise (TypeError "n_splits is inconsistent across the different splitters").

(** The property [fitted] (lines 181-183). *)
Definition fitted (self : MOODSplitter) : bool :=
  bool_decide (_prescribed_splitter_label self ≠ None).

Definition not_fitted : exn := RuntimeError "The splitter has not be fitted yet".

(** The property [prescribed_splitter_label] (lines 175-179). *)
Definition prescribed_splitter_label (self : MOODSplitter) : result string :=
  if negb (fitted self) then Raise not_fitted
  else match _prescribed_splitter_label self with
       | Some name => Ok name
       | None => Raise not_fitted
       end.

(** [self._splitters[name]]. *)
Fixpoint getitem (splitters : list (string * Splitter)) (name : string)
    : result Splitter :=
  match splitters with
  | [] => Raise KeyError
  | item :: splitters' =>
      if decide (item.1 = name) then Ok item.2 else getitem splitters' name
  end.

(** [get_prescribed_splitter] (lines 198-199). *)
Definition get_prescribed_splitter (self : MOODSplitter) : result Splitter :=
  name ← prescribed_splitter_label self;
  getitem (_splitters self) name.

(** [MOODSplitter._iter_indices] (lines 262-266): the trials of the
    prescribed splitter. *)
Definition _iter_indices (self : MOODSplitter) (X : list Row)
    : result (list (result (list nat * list nat))) :=
  if negb (fitted self) then Raise not_fitted
  else
    splitter ← get_prescribed_splitter self;
    Ok (split splitter X).

(** [_compute_distance] (lines 185-196). *)
Definition _compute_distance (self : MOODSplitter)
    (X_from : option (list Row)) (X_to : list Row) : result (list R) :=
  knn_mean_distance (_metric self) (_p self) (_k self) X_from X_to.

(** [X[indices]]. *)
Definition take_rows (X : list Row) (indices : list nat) : result (list Row) :=
  match mapM (λ i, X !! i) indices with
  | Some rows => Ok rows
  | None => Raise IndexError
  end.

(** The inner loop of [fit] (lines 235-242) over the trials of one
    splitter.  All reals are finite, so lines 238-239 keep every distance. *)
Fixpoint characterize_trials (self : MOODSplitter) (name : string)
    (downstream_distances : list R) (X : list Row)
    (trials : list (result (list nat * list nat)))
    (chars : list SplitCharacterization)
    : result (list SplitCharacterization) :=
  match trials with
  | [] => Ok chars
  | trial :: trials' =>
      '(train, test) ← trial;
      X_test ← take_rows X test;
      X_train ← take_rows X train;
      distances ← _compute_distance self (Some X_test) X_train;
      score ← score_representativeness downstream_distances distances;
      characterize_trials self name downstream_distances X trials'
        (chars ++ [{| distances := distances; representativeness := score;
                      label := name |}])
  end.

(** The outer loop of [fit] (lines 226-244) over the candidate splitters. *)
Fixpoint characterize_splitters (self : MOODSplitter)
    (downstream_distances : list R) (X : list Row)
    (items : list (string * Splitter))
    (split_chars : list SplitCharacterization)
    : result (list SplitCharacterization) :=
  match items with
  | [] => Ok split_chars
  | (name, splitter) :: items' =>
      chars ← characterize_trials self name downstream_distances X
                (split splitter X) [];
      char ← concat chars;
      characterize_splitters self downstream_distances X items'
        (split_chars ++ [char])
  end.

(** Methods run on the state of the splitter: they return a value or raise,
    and leave a state behind in both cases. *)
Definition method (A : Type) : Type := MOODSplitter → result A * MOODSplitter.

Definition method_ret {A} (a : A) : method A := λ self, (Ok a, self).

Definition method_bind {A B} (m : method A) (k : A → method B) : method B :=
  λ self,
    match m self with
    | (Ok a, self') => k a self'
    | (Raise e, self') => (Raise e, self')
    end.

Definition get_self : method MOODSplitter := λ self, (Ok self, self).
Definition update (f : MOODSplitter → MOODSplitter) : method unit :=
  λ self, (Ok (), f self).
Definition call {A} (r : result A) : method A := λ self, (r, self).

#[local] Instance method_mret : MRet method := @method_ret.
#[local] Instance method_mbind : MBind method := λ A B k m, method_bind m k.

(** [fit] (lines 204-260), without the progress bars.  Of the two log
    lines, which format and emit text, the table of the first one is kept:
    [as_dataframe] is evaluated after the prescription is stored.  The
    result is the figure with [plot], and [None] without. *)
Definition fit (X : list Row) (X_deployment : option (list Row))
    (plot : bool) : method (option Axes) :=
  self ← get_self;
  downstream_distances ←
    match _downstream_distances self with
    | None =>
        d ← call (_compute_distance self X_deployment X);
        update (set_downstream_distances d);;
        mret d
    | Some d => mret d
    end;
  self ← get_self;
  split_chars ← call (characterize_splitters self downstream_distances X
                         (_splitters self) []);
  chosen ← call (best split_chars);
  update (set_prescription split_chars (label chosen));;
  call (as_dataframe split_chars);;
  if plot then
    ax ← call (visualize downstream_distances split_chars);
    mret (Some ax)
  else mret None.

(** What [fit] does once the prescription is stored (lines 253-260). *)
Definition report (d : list R) (split_chars : list SplitCharacterization)
    (plot : bool) : result (option Axes) :=
  as_dataframe split_chars;;
  if plot then Some <$> visualize d split_chars else Ok None.

(** [fit] once the downstream distances [d] are at hand. *)
Definition fit_with (X : list Row) (d : list R) (plot : bool)
    (self : MOODSplitter) : result (option Axes) * MOODSplitter :=
  match characterize_splitters self d X (_splitters self) []
  with
  | Raise e => (Raise e, self)
  | Ok split_chars =>
      match best split_chars with
      | Raise e => (Raise e, self)
      | Ok chosen =>
          (report d split_chars plot,
           set_prescription split_chars (label chosen) self)
      end
  end.

(** A sequence of [fit] calls on one splitter: the outcomes, and the state
    left by the last call. *)
Fixpoint fit_sequence (calls : list (list Row * option (list Row) * bool))
    (self : MOODSplitter) : list (result (option Axes)) * MOODSplitter :=
  match calls with
  | [] => ([], self)
  | (X, X_deployment, plot) :: calls' =>
      let '(outcome, self') := fit X X_deployment plot self in
      let '(outcomes, self'') := fit_sequence calls' self' in
      (outcome :: outcomes, self'')
  end.



End model.
End Prescriber.

(** ** Vocabulary of the trial properties *)

(** Position [i] holds a value of [v] that is at most the one at [j]. *)
Definition value_le (v : list Q) (i j : nat) : Prop :=
  ∃ x y, v !! i = Some x ∧ v !! j = Some y ∧ (x <= y)%Q.

(** The samples, the groups and the distance of a pair of clusters. *)
Definition pair_members (gi : list nat) (ij : nat * nat) : list nat :=
  Clustering.members gi ij.1 ++ Clustering.members gi ij.2.

Definition pair_groups (pairs : list (nat * nat)) : list nat :=
  pairs ≫= (λ ij, [ij.1; ij.2]).

Definition pair_distance (distance_matrix : list (list Q)) (ij : nat * nat) : Q :=
  default 0%Q (Numpy.get2 distance_matrix ij.1 ij.2).

(** The groups, other than the two anchors, among [groups]. *)
Definition other_groups (train_idx test_idx : nat) (groups : list nat)
    : list nat :=
  filter (λ g, ¬ (g = train_idx ∨ g = test_idx)) groups.

(** ** Sample inputs *)

(** A sample input: ten points on a line, four at 0, four at 10 and two
    at 4, clustered into three groups whose sorted centres are 0, 4
    and 10; with the default [test_size] of 0.2 the target is
    [n_test = 2]. *)
Definition line_groups : list nat := [0; 0; 0; 0; 2; 2; 2; 2; 1; 1].
Definition line_distances : list (list Q) :=
  [[0; 4; 10]; [4; 0; 6]; [10; 6; 0]]%Q.


(** A degenerate input: three samples in one cluster ([n_clusters = 1]),
    so one distinct centre and a 1x1 distance matrix; with the default
    [test_size] of 0.2, [n_train = 2]. *)
Definition one_cluster_groups : list nat := [0; 0; 0].
Definition one_cluster_distances : list (list Q) := [[0]]%Q.

(** A sample input with two clusters: four points, the outer two in
    cluster 0 and the inner two in cluster 1. *)
Definition two_groups : list nat := [0; 1; 1; 0].
Definition two_distances : list (list Q) := [[0; 3]; [3; 0]]%Q.

(** A sample input with four clusters: eight points, two at each of the
    centres 0, 1, 3 and 10 on a line. *)
Definition four_groups : list nat := [0; 1; 2; 3; 0; 1; 2; 3].
Definition four_distances : list (list Q) :=
  [[0; 1; 3; 10]; [1; 0; 2; 9]; [3; 2; 0; 7]; [10; 9; 7; 0]]%Q.

(** The neighbour search of the samples: rows are numbers, and the search
    is the library call for one neighbour ([k = 1]), where the mean over the
    neighbours is the distance to the nearest row of [X_to].  Without
    queries, the rows of [X_to] are the queries and a row is not its own
    neighbour, as [kneighbors(None)] has it.  The call raises when there is
    no row to choose from. *)
Definition nearest (candidates : list Z) (query : Z) : result R :=
  match merge_sort Z.le ((λ y, Z.abs (query - y)) <$> candidates) with
  | d :: _ => Ok (IZR d)
  | [] => Raise ValueError
  end.

Fixpoint nearest_each (candidates queries : list Z) : result (list R) :=
  match queries with
  | [] => Ok []
  | query :: queries' =>
      d ← nearest candidates query;
      ds ← nearest_each candidates queries';
      Ok (d :: ds)
  end.

Fixpoint nearest_within (before after : list Z) : result (list R) :=
  match after with
  | [] => Ok []
  | query :: after' =>
      d ← nearest (before ++ after') query;
      ds ← nearest_within (before ++ [query]) after';
      Ok (d :: ds)
  end.

Definition line_knn (metric : string) (p k : nat)
    (X_from : option (list Z)) (X_to : list Z) : result (list R) :=
  if decide (k = 1) then
    match X_to, X_from with
    | [], _ => Raise ValueError
    | _, Some queries => nearest_each X_to queries
    | _, None => nearest_within [] X_to
    end
  else Raise (LibraryError 2).

(** The other library calls of the samples, on what the samples pass to
    them.  The score of two samples of two values or more is a number; it
    is taken to be 1/2, and no property of the samples depends on which
    number it is.  The mean of one score is that score, and its rank is 1.
    The figure cannot be drawn: the call raises. *)
Definition sample_score (downstream_distances distances : list R)
    : result Prescriber.float :=
  if decide (2 ≤ length distances ∧ 2 ≤ length downstream_distances)
  then Ok (Some (1 / 2)%R) else Raise ValueError.

Definition sample_mean (scores : list Prescriber.float) : Prescriber.float :=
  match scores with
  | [score] => score
  | _ => None
  end.

Definition sample_rank (scores : list Prescriber.float)
    : result (list Prescriber.float) :=
  Ok ((λ _, Some 1%R) <$> scores).

Definition no_display (d : list R)
    (split_chars : list Prescriber.SplitCharacterization) : result unit :=
  Raise (LibraryError 1).

(** The rows of the samples: four numbers, and two numbers of the
    deployment. *)
Definition line_rows : list Z := [0; 1; 3; 7]%Z.
Definition line_deployment : list Z := [2; 5]%Z.


Definition one_trial_splitter : Prescriber.Splitter (Row:=Z) :=
  {| Prescriber.get_n_splits := 1;
     Prescriber.split := λ X, [Ok ([0; 1], [2; 3])] |}.


Definition ready_prescriber : Prescriber.MOODSplitter (Row:=Z) :=
  {| Prescriber._n_splits := 1; Prescriber._p := 2; Prescriber._k := 1;
     Prescriber._metric := "minkowski";
     Prescriber._splitters := [("Random"%string, one_trial_splitter)];
     Prescriber._downstream_distances := None;
     Prescriber._split_chars := None;
     Prescriber._prescribed_splitter_label := None |}.

(** The distances of the deployment rows to the rows, those of the test
    rows of the trial to its train rows, and the state that a [fit] of
    [ready_prescriber] commits. *)
Definition line_downstream_distances : list R := [1; 2]%R.
Definition line_trial_distances : list R := [2; 6]%R.

Definition ready_prescriber_fitted : Prescriber.MOODSplitter (Row:=Z) :=
  Prescriber.set_prescription
    [{| Prescriber.distances := line_trial_distances;
        Prescriber.representativeness := Some (1 / 2)%R;
        Prescriber.label := "Random" |}]
    "Random"
    (Prescriber.set_downstream_distances line_downstream_distances
       ready_prescriber).

(** * Properties *)

(** ** Array primitives *)
Section numpy_facts.
Import Numpy Clustering.

Lemma elem_of_flatnonzero_eq (gi : list nat) g s :
  s ∈ flatnonzero_eq gi g ↔ gi !! s = Some g.
Proof.
  unfold flatnonzero_eq. rewrite list_elem_of_filter, elem_of_seq.
  split; [tauto|]. intros Hs. split; [done|].
  apply lookup_lt_Some in Hs. lia.
Qed.

Lemma NoDup_flatnonzero_eq (gi : list nat) g : NoDup (flatnonzero_eq gi g).
Proof. apply NoDup_filter, NoDup_seq. Qed.

Lemma flatnonzero_eq_disjoint (gi : list nat) g h s :
  g ≠ h → s ∈ flatnonzero_eq gi g → s ∉ flatnonzero_eq gi h.
Proof. rewrite !elem_of_flatnonzero_eq. congruence. Qed.

Lemma filter_all {A} (P : A → Prop) `{!∀ x, Decision (P x)} (l : list A) :
  Forall P l → filter P l = l.
Proof.
  induction 1 as [|x l Hx _ IH]; [done|].
  by rewrite filter_cons_True, IH.
Qed.

Lemma elem_of_dedup_inverse M (gi : list nat) :
  dedup_inverse M gi → ∀ g, g ∈ gi ↔ g < M.
Proof.
  intros [Hlt Hin] g. rewrite Forall_forall in Hlt. rewrite Forall_seq in Hin.
  split; [apply Hlt|]. intros Hg. apply Hin. lia.
Qed.

Lemma lookup_dedup_inverse M (gi : list nat) s g :
  dedup_inverse M gi → gi !! s = Some g → g < M.
Proof.
  intros Hgi Hs. eapply elem_of_dedup_inverse; [done|].
  by eapply list_elem_of_lookup_2.
Qed.

Lemma unique_dedup_inverse M (gi : list nat) :
  dedup_inverse M gi → unique gi = seq 0 M.
Proof.
  intros Hgi. pose proof (elem_of_dedup_inverse _ _ Hgi) as Hiff.
  unfold unique. destruct M as [|M].
  - assert (gi = []) as ->.
    { destruct gi as [|g gi]; [done|].
      assert (g < 0) by (apply Hiff; left). lia. }
    done.
  - assert (M ∈ gi) as HM by (apply Hiff; lia).
    assert (gi ≠ []) as Hne by (intros ->; by apply elem_of_nil in HM).
    apply max_list_elem_of, Hiff in Hne.
    apply max_list_elem_of_le in HM.
    replace (max_list gi) with M by lia.
    apply filter_all, Forall_seq. intros g Hg. apply Hiff. lia.
Qed.

Lemma elem_of_tril_indices n i j :
  (i, j) ∈ tril_indices n ↔ j < i < n.
Proof.
  unfold tril_indices. rewrite list_elem_of_bind. split.
  - intros (i' & Hij & Hi'). apply list_elem_of_fmap in Hij as (j' & [= -> ->] & Hj').
    apply elem_of_seq in Hi', Hj'. lia.
  - intros Hij. exists i. split; [|apply elem_of_seq; lia].
    apply list_elem_of_fmap. exists j. split; [done|]. apply elem_of_seq. lia.
Qed.

Lemma insert_by_value_perm x l : insert_by_value x l ≡ₚ x :: l.
Proof.
  induction l as [|y l IH]; simpl; [done|].
  destruct (Qle_bool _ _); [done|]. by rewrite IH, Permutation_swap.
Qed.

Lemma argsort_perm v : argsort v ≡ₚ seq 0 (length v).
Proof.
  unfold argsort.
  assert (∀ l : list (nat * Q), foldr insert_by_value [] l ≡ₚ l) as Hsort.
  { induction l as [|x l IH]; simpl; [done|].
    by rewrite insert_by_value_perm, IH. }
  rewrite Hsort, fst_zip; [done|]. by rewrite length_seq.
Qed.

Lemma argsort_lt v i : i ∈ argsort v → i < length v.
Proof. rewrite argsort_perm, elem_of_seq. lia. Qed.

Lemma NoDup_argsort v : NoDup (argsort v).
Proof. rewrite argsort_perm. apply NoDup_seq. Qed.

Lemma Sorted_le_seq i n : Sorted (≤) (seq i n).
Proof.
  revert i. induction n as [|n IH]; intros i; simpl; constructor; [apply IH|].
  destruct n; simpl; constructor. lia.
Qed.

(** Sorting a permutation of [0 .. n-1] gives [0 .. n-1]. *)
Lemma sorted_range (l : list nat) n :
  l ≡ₚ seq 0 n → merge_sort (≤) l = seq 0 n.
Proof.
  intros Hperm. apply (Sorted_unique (≤)).
  - apply Sorted_merge_sort. apply _.
  - apply Sorted_le_seq.
  - by rewrite merge_sort_Permutation.
Qed.

Lemma get2_square M m i j :
  square M m → i < M → j < M → is_Some (get2 m i j).
Proof.
  intros [Hlen Hrows] Hi Hj. unfold get2.
  destruct (lookup_lt_is_Some_2 m i) as [row Hrow]; [lia|].
  rewrite Hrow. simpl. apply lookup_lt_is_Some_2.
  rewrite Forall_forall in Hrows.
  rewrite (Hrows row); [done|]. by eapply list_elem_of_lookup_2.
Qed.

(** [argmax_from] returns a position of [full] holding a largest value,
    the first such position. *)
Lemma argmax_from_spec (full : list Q) l best_i best i :
  full !! best_i = Some best → drop i full = l → best_i < i →
  (∀ j x, j < i → full !! j = Some x → (x <= best)%Q) →
  (∀ j x, j < best_i → full !! j = Some x → (x < best)%Q) →
  ∃ v, full !! argmax_from best_i best i l = Some v ∧
    (∀ j x, full !! j = Some x → (x <= v)%Q) ∧
    (∀ j x, j < argmax_from best_i best i l → full !! j = Some x → (x < v)%Q).
Proof.
  revert best_i best i.
  induction l as [|x l IH]; intros best_i best i Hbest Hdrop Hlt Hle Hfirst.
  { simpl. exists best. split_and!; [done| |done].
    intros j y Hj. apply (Hle j); [|done].
    apply lookup_lt_Some in Hj.
    assert (length (drop i full) = 0) as Hlen by by rewrite Hdrop.
    rewrite length_drop in Hlen. lia. }
  assert (full !! i = Some x) as Hi.
  { rewrite <-(Nat.add_0_r i), <-lookup_drop, Hdrop. done. }
  assert (drop (S i) full = l) as Hdrop'.
  { rewrite (drop_S _ _ _ Hi) in Hdrop. by injection Hdrop. }
  simpl. destruct (Qle_bool x best) eqn:Hcmp.
  - apply Qle_bool_iff in Hcmp. apply IH; [done|done|lia| |done].
    intros j y Hj Hy. destruct (decide (j = i)) as [->|]; [congruence|].
    apply (Hle j); [lia|done].
  - assert (best < x)%Q as Hbx.
    { apply Qnot_le_lt. intros Hc%Qle_bool_iff. congruence. }
    apply IH; [done|done|lia| |].
    + intros j y Hj Hy. destruct (decide (j = i)) as [->|].
      * assert (y = x) as -> by congruence. apply Qle_refl.
      * apply Qlt_le_weak, Qle_lt_trans with best; [|done].
        apply (Hle j); [lia|done].
    + intros j y Hj Hy. apply Qle_lt_trans with best; [|done].
      by apply (Hle j).
Qed.

Lemma argmax_spec (l : list Q) :
  l ≠ [] →
  ∃ i v, argmax l = Some i ∧ l !! i = Some v ∧
    (∀ j x, l !! j = Some x → (x <= v)%Q) ∧
    (∀ j x, j < i → l !! j = Some x → (x < v)%Q).
Proof.
  destruct l as [|x l]; [done|]. intros _. simpl.
  destruct (argmax_from_spec (x :: l) l 0 x 1) as (v & Hv & Hmax & Hfirst);
    [done|done|lia| |lia|].
  { intros j y Hj Hy. assert (j = 0) as -> by lia.
    injection Hy as ->. apply Qle_refl. }
  by exists (argmax_from 0 x 1 l), v.
Qed.

Lemma length_mean_axis0 M (m : list (list Q)) :
  square M m → length (mean_axis0 m) = M.
Proof.
  intros [Hlen Hrows]. unfold mean_axis0. rewrite length_fmap, length_seq.
  destruct m as [|row m]; [done|]. simpl.
  by apply Forall_cons_1 in Hrows as [-> _].
Qed.

Lemma lookup_mean_axis0 M (m : list (list Q)) j :
  square M m → j < M →
  mean_axis0 m !! j = Some (Double.mean (column m j)).
Proof.
  intros Hsq Hj. pose proof (length_mean_axis0 _ _ Hsq) as Hlen.
  unfold mean_axis0 in *. rewrite length_fmap, length_seq in Hlen.
  by rewrite list_lookup_fmap, Hlen, lookup_seq_lt by done.
Qed.
End numpy_facts.

(** ** [PerimeterSplit] *)
Section perimeter_facts.
Import Numpy Clustering Perimeter.

Variables (M n_test : nat) (gi : list nat).
Hypothesis Hgi : dedup_inverse M gi.

#[local] Abbreviation scan_inv := (Clustering.scan_inv M gi).
#[local] Abbreviation last_pair := (Clustering.last_pair M n_test gi).

Lemma scan_inv_remove test_indices remaining i :
  scan_inv test_indices remaining → i ∈ remaining →
  scan_inv (test_indices ++ flatnonzero_eq gi i) (remaining ∖ {[i]}).
Proof.
  intros (Hnd & Hlt & Hmem) Hi. split_and!.
  - apply NoDup_app. split_and!; [done| |apply NoDup_flatnonzero_eq].
    intros s Hs Hs'. apply elem_of_flatnonzero_eq in Hs'.
    apply Hmem in Hs as (g & Hg & Hgr). congruence.
  - intros g [Hg _]%elem_of_difference. by apply Hlt.
  - intros s. rewrite elem_of_app, Hmem, elem_of_flatnonzero_eq. split.
    + intros [(g & Hg & Hgr)|Hs].
      * exists g. split; [done|]. rewrite elem_of_difference. tauto.
      * exists i. split; [done|].
        rewrite elem_of_difference, elem_of_singleton. tauto.
    + intros (g & Hg & Hgr). destruct (decide (g = i)) as [->|Hgi']; [by right|].
      left. exists g. split; [done|]. intros Hgrem. apply Hgr.
      rewrite elem_of_difference, elem_of_singleton. tauto.
Qed.

Lemma scan_pairs_spec tril order :
  (∀ i j, (i, j) ∈ tril → i ≠ j) →
  Forall (λ pos, pos < length tril) order →
  ∀ test0 remaining0, scan_inv test0 remaining0 →
  ∃ test_indices remaining,
    scan_pairs n_test gi (seq 0 M) tril order test0 remaining0
      = Some (test_indices, remaining) ∧
    scan_inv test_indices remaining ∧ last_pair test0 test_indices.
Proof.
  intros Htril. induction 1 as [|pos order Hpos _ IH]; intros test0 R0 Hinv.
  { exists test0, R0. split_and!; [done..|by left]. }
  simpl. case_decide as Hfull.
  { exists test0, R0. split_and!; [done..|by left]. }
  destruct (lookup_lt_is_Some_2 tril pos Hpos) as [[i j] Hij].
  rewrite Hij. simpl. case_decide as Hrem; [|by apply IH].
  destruct Hrem as [Hi Hj].
  assert (i ≠ j) as Hne by (eapply Htril, list_elem_of_lookup_2, Hij).
  assert (i < M ∧ j < M) as [HiM HjM] by (split; by apply Hinv).
  rewrite !lookup_seq_lt by done. simpl.
  apply (scan_inv_remove _ _ i) in Hinv as Hinv1; [|done].
  apply (scan_inv_remove _ _ j) in Hinv1 as Hinv2;
    [|rewrite elem_of_difference, elem_of_singleton; split; [done|congruence]].
  destruct (IH _ _ Hinv2) as (test' & R' & -> & Hinv' & Hlast).
  exists test', R'. split_and!; [done..|]. right.
  destruct Hlast as [->|(before & i' & j' & ?)].
  - exists test0, i, j. split_and!; [done..|lia|by rewrite <-(assoc_L (++))].
  - by exists before, i', j'.
Qed.

Lemma collect_train_spec remaining train0 :
  (∀ g, g ∈ remaining → g < M) →
  collect_train gi (seq 0 M) remaining train0
    = Some (train0 ++ remaining ≫= members gi).
Proof.
  revert train0. induction remaining as [|g remaining IH]; intros train0 Hlt.
  { simpl. by rewrite (right_id_L [] (++)). }
  simpl. rewrite lookup_seq_lt by (apply Hlt; left). simpl.
  rewrite IH by (intros g' Hg'; apply Hlt; by right).
  by rewrite <-(assoc_L (++)).
Qed.

Lemma elem_of_members_bind (remaining : list nat) s :
  s ∈ remaining ≫= members gi ↔ ∃ g, gi !! s = Some g ∧ g ∈ remaining.
Proof.
  rewrite list_elem_of_bind. unfold members.
  setoid_rewrite elem_of_flatnonzero_eq. naive_solver.
Qed.

Lemma NoDup_members_bind (remaining : list nat) :
  NoDup remaining → NoDup (remaining ≫= members gi).
Proof.
  apply NoDup_bind.
  - intros g h s _ _. unfold members. rewrite !elem_of_flatnonzero_eq. congruence.
  - intros g _. apply NoDup_flatnonzero_eq.
Qed.

Lemma maximum_distance_indices_spec distance_matrix :
  square M distance_matrix →
  ∃ order, maximum_distance_indices distance_matrix = Some order ∧
    Forall (λ pos, pos < length (tril_indices M)) order.
Proof.
  intros Hsq. unfold maximum_distance_indices. rewrite (proj1 Hsq).
  destruct (mapM_is_Some_2 (λ ij, get2 distance_matrix ij.1 ij.2)
              (tril_indices M)) as [vals Hvals].
  { apply Forall_forall. intros [i j] Hij%elem_of_tril_indices.
    apply (get2_square M); simpl; [done|lia..]. }
  rewrite Hvals. simpl. eexists; split; [done|].
  apply Forall_forall. intros pos Hpos%elem_of_reverse%argsort_lt.
  by rewrite (length_mapM _ _ _ Hvals).
Qed.

(** What one trial computes: the scan ends in a state [(test_indices,
    remaining)] that satisfies the invariant, and the train indices are
    the members of the groups still in [remaining]. *)
Lemma trial_spec distance_matrix :
  square M distance_matrix →
  ∃ test_indices remaining,
    scan n_test gi distance_matrix = Some (test_indices, remaining) ∧
    trial n_test gi distance_matrix
      = Some (elements remaining ≫= members gi, test_indices) ∧
    scan_inv test_indices remaining ∧ last_pair [] test_indices.
Proof.
  intros Hsq. unfold trial, scan.
  destruct (maximum_distance_indices_spec _ Hsq) as (order & -> & Horder).
  simpl. rewrite (unique_dedup_inverse M), (proj1 Hsq) by done.
  destruct (scan_pairs_spec (tril_indices M) order) with
    (test0 := @nil nat) (remaining0 := list_to_set (C:=gset nat) (seq 0 M))
    as (test_indices & remaining & -> & Hinv & Hlast); [| done | |].
  { intros i j Hij%elem_of_tril_indices. lia. }
  { split_and!; [constructor| |].
    - intros g Hg%elem_of_list_to_set%elem_of_seq. lia.
    - intros s. split; [by intros ?%elem_of_nil|].
      intros (g & Hs & Hg). destruct Hg.
      apply elem_of_list_to_set, elem_of_seq.
      apply (lookup_dedup_inverse M) in Hs; [lia|done]. }
  exists test_indices, remaining. simpl.
  rewrite collect_train_spec; [done|].
  intros g Hg%elem_of_elements. by apply Hinv.
Qed.

(** The two index arrays of a trial list every sample once. *)
Lemma trial_partition distance_matrix :
  square M distance_matrix →
  ∃ train_indices test_indices,
    trial n_test gi distance_matrix = Some (train_indices, test_indices) ∧
    train_indices ++ test_indices ≡ₚ seq 0 (length gi).
Proof.
  intros Hsq.
  destruct (trial_spec _ Hsq) as (test & R & _ & Htrial & Hinv & _).
  destruct Hinv as (Hnd & Hlt & Hmem).
  eexists _, _. split; [done|].
  apply NoDup_Permutation; [|apply NoDup_seq|].
  - apply NoDup_app. split_and!; [|  |done].
    + apply NoDup_members_bind, NoDup_elements.
    + intros s (g & Hs & Hg%elem_of_elements)%elem_of_members_bind
        (g' & Hs' & Hg')%Hmem. congruence.
  - intros s. rewrite elem_of_app, elem_of_members_bind, Hmem, elem_of_seq.
    split.
    + intros [(g & Hs & _)|(g & Hs & _)]; apply lookup_lt_Some in Hs; lia.
    + intros [_ Hs]. destruct (lookup_lt_is_Some_2 gi s Hs) as [g Hg].
      destruct (decide (g ∈ R)); [left|right]; exists g;
        by rewrite ?elem_of_elements.
Qed.
End perimeter_facts.

Section perimeter_claims.
Import Numpy Clustering.

(** C7. Within one PerimeterSplit trial no de-duplicated group has samples
    in both index arrays: a sample is in the test array only if its group
    has left [remaining], and the train array holds only samples of groups
    still in [remaining] when the scan ends. *)
Theorem perimeter_no_group_on_both_sides M n_test gi distance_matrix :
  dedup_inverse M gi → square M distance_matrix →
  ∃ train_indices test_indices remaining,
    Perimeter.scan n_test gi distance_matrix
      = Some (test_indices, remaining) ∧
    Perimeter.trial n_test gi distance_matrix
      = Some (train_indices, test_indices) ∧
    (∀ s g, s ∈ test_indices → gi !! s = Some g → g ∉ remaining) ∧
    (∀ s g, s ∈ train_indices → gi !! s = Some g → g ∈ remaining) ∧
    (∀ s t, s ∈ train_indices → t ∈ test_indices → gi !! s ≠ gi !! t).
Proof.
  intros Hgi Hsq.
  destruct (trial_spec M n_test gi Hgi _ Hsq)
    as (test & R & Hscan & Htrial & (_ & _ & Hmem) & _).
  assert (∀ s g, s ∈ test → gi !! s = Some g → g ∉ R) as Htest.
  { intros s g (g' & Hs & Hg')%Hmem Hs'. congruence. }
  assert (∀ s g, s ∈ elements R ≫= members gi → gi !! s = Some g → g ∈ R)
    as Htrain.
  { intros s g (g' & Hs & Hg'%elem_of_elements)%elem_of_members_bind Hs'.
    congruence. }
  eexists _, test, R. split_and!; [done..|].
  intros s t Hs Ht Heq.
  apply elem_of_members_bind in Hs as Hs'. destruct Hs' as (g & Hg & _).
  apply (Htest t g); [done|congruence|]. by apply (Htrain s).
Qed.

Lemma perimeter_no_group_on_both_sides_witness :
  ∃ train_indices test_indices remaining,
    Perimeter.scan 2 line_groups line_distances
      = Some (test_indices, remaining) ∧
    Perimeter.trial 2 line_groups line_distances
      = Some (train_indices, test_indices) ∧
    (∀ s g, s ∈ test_indices → line_groups !! s = Some g → g ∉ remaining) ∧
    (∀ s g, s ∈ train_indices → line_groups !! s = Some g → g ∈ remaining) ∧
    (∀ s t, s ∈ train_indices → t ∈ test_indices →
       line_groups !! s ≠ line_groups !! t).
Proof.
  apply (perimeter_no_group_on_both_sides 3 2 line_groups line_distances);
    vm_compute; repeat constructor.
Defined.

(** C3, as amended. The scan assigns whole pairs and only while the test
    array is below the target: either no pair was assigned, or the array
    ends with the two groups of the last assigned pair and was below the
    target before them, so it exceeds the target by less than the size of
    that pair. *)
Theorem perimeter_overshoot_below_last_pair M n_test gi distance_matrix :
  dedup_inverse M gi → square M distance_matrix →
  ∃ train_indices test_indices,
    Perimeter.trial n_test gi distance_matrix
      = Some (train_indices, test_indices) ∧
    (test_indices = [] ∨
     ∃ before i j, i ≠ j ∧ i < M ∧ j < M ∧
       test_indices = before ++ members gi i ++ members gi j ∧
       length before < n_test ∧
       length test_indices
         < n_test + length (members gi i) + length (members gi j)).
Proof.
  intros Hgi Hsq.
  destruct (trial_spec M n_test gi Hgi _ Hsq)
    as (test & R & _ & Htrial & _ & Hlast).
  eexists _, test. split; [done|].
  destruct Hlast as [->|(before & i & j & Hne & Hi & Hj & Hlen & ->)];
    [by left|right].
  exists before, i, j. split_and!; [done..|].
  rewrite !length_app. lia.
Qed.

Lemma perimeter_overshoot_below_last_pair_witness :
  ∃ train_indices test_indices,
    Perimeter.trial 2 line_groups line_distances
      = Some (train_indices, test_indices) ∧
    (test_indices = [] ∨
     ∃ before i j, i ≠ j ∧ i < 3 ∧ j < 3 ∧
       test_indices = before ++ members line_groups i ++ members line_groups j ∧
       length before < 2 ∧
       length test_indices
         < 2 + length (members line_groups i) + length (members line_groups j)).
Proof.
  apply (perimeter_overshoot_below_last_pair 3 2 line_groups line_distances);
    vm_compute; repeat constructor.
Defined.

(** C3, as stated, fails on the sample input: the first pair puts both
    clusters of four samples into the test array, six more than the target
    of two, while the largest cluster has four samples. *)
Lemma perimeter_overshoot_counterexample :
  Perimeter.trial 2 line_groups line_distances
    = Some ([8; 9], [4; 5; 6; 7; 0; 1; 2; 3]) ∧
  ¬ overshoot_within_one_cluster 3 2 line_groups [4; 5; 6; 7; 0; 1; 2; 3].
Proof.
  split; [by vm_compute|].
  intros (g & Hg & Hlen).
  destruct g as [|[|[|g]]]; vm_compute in Hlen; lia.
Qed.
End perimeter_claims.

(** ** [MaxDissimilaritySplit] *)
Section maxdis_facts.
Import Numpy Clustering MaxDissimilarity.

(** The anchors of a non-empty square matrix: [test_idx] is the first
    column of largest computed mean, [train_idx] the first largest entry of
    row [test_idx]. *)
Lemma anchors_spec M (m : list (list Q)) :
  square M m → 0 < M →
  ∃ test_idx train_idx row v,
    anchors m = Some (test_idx, train_idx) ∧
    test_idx < M ∧ train_idx < M ∧
    m !! test_idx = Some row ∧ row !! train_idx = Some v ∧
    (∀ g, g < M →
       (Double.mean (column m g) <= Double.mean (column m test_idx))%Q) ∧
    (∀ g x, row !! g = Some x → (x <= v)%Q) ∧
    (∀ g x, g < train_idx → row !! g = Some x → (x < v)%Q) ∧
    (∀ g, g < test_idx →
       (Double.mean (column m g) < Double.mean (column m test_idx))%Q).
Proof.
  intros Hsq HM. pose proof (length_mean_axis0 _ _ Hsq) as Hlen.
  destruct (argmax_spec (mean_axis0 m)) as (t & mt & Ht & Hmt & Hmax & Hfirst).
  { intros Hnil. rewrite Hnil in Hlen. simpl in Hlen. lia. }
  assert (t < M) as HtM by (apply lookup_lt_Some in Hmt; lia).
  destruct (lookup_lt_is_Some_2 m t) as [row Hrow]; [rewrite (proj1 Hsq); lia|].
  assert (length row = M) as Hrowlen.
  { destruct Hsq as [_ Hrows]. rewrite Forall_forall in Hrows.
    apply Hrows. by eapply list_elem_of_lookup_2. }
  destruct (argmax_spec row) as (r & v & Hr & Hv & Hrmax & Hrfirst).
  { intros ->. simpl in Hrowlen. lia. }
  exists t, r, row, v. unfold anchors. rewrite Ht. simpl. rewrite Hrow. simpl.
  rewrite Hr. simpl.
  rewrite (lookup_mean_axis0 M) in Hmt by done. injection Hmt as <-.
  split_and!; [done|done| |done|done| |done|done|].
  - apply lookup_lt_Some in Hv. lia.
  - intros g Hg. apply (Hmax g). by apply (lookup_mean_axis0 M).
  - intros g Hg. apply (Hfirst g); [done|].
    apply (lookup_mean_axis0 M); [done|lia].
Qed.

Lemma seed_spec M (gi : list nat) test_idx train_idx :
  dedup_inverse M gi → test_idx < M → train_idx < M →
  seed gi (unique gi) test_idx train_idx
    = Some (members gi train_idx, members gi test_idx).
Proof.
  intros Hgi Ht Hr. unfold seed.
  rewrite (unique_dedup_inverse M), !lookup_seq_lt by done. done.
Qed.

(** The growth loop keeps [train_indices] free of repetitions and of the
    samples of [test_idx], and only extends it. *)
Lemma grow_train_spec M n_train (gi : list nat) train_idx test_idx sorted_groups :
  NoDup sorted_groups → Forall (λ g, g < M) sorted_groups →
  ∀ train0,
    NoDup train0 →
    (∀ s g, s ∈ train0 → gi !! s = Some g →
       g ≠ test_idx ∧ (g = train_idx ∨ g ∉ sorted_groups)) →
    ∃ train_indices,
      grow_train n_train gi (seq 0 M) train_idx test_idx sorted_groups train0
        = Some train_indices ∧
      train0 `prefix_of` train_indices ∧ NoDup train_indices ∧
      (∀ s, s ∈ train_indices → gi !! s ≠ Some test_idx).
Proof.
  induction 1 as [|g rest Hg Hnd IH]; intros Hlt train0 Hnd0 Hinv.
  { exists train0. split_and!; [done..|]. intros s Hs Hst.
    by destruct (Hinv s test_idx Hs Hst). }
  apply Forall_cons_1 in Hlt as [HgM Hlt]. simpl.
  case_decide as Hfull.
  { exists train0. split_and!; [done..|]. intros s Hs Hst.
    by destruct (Hinv s test_idx Hs Hst). }
  case_decide as Hanchor.
  - apply IH; [done..|]. intros s g' Hs Hg'.
    destruct (Hinv s g' Hs Hg') as [? [?|Hnot]]; [by auto|].
    split; [done|]. right. intros ?. apply Hnot. by right.
  - rewrite lookup_seq_lt by done. simpl.
    destruct (IH Hlt (train0 ++ flatnonzero_eq gi g))
      as (train & -> & Hpre & Hnd' & Htest).
    + apply NoDup_app. split_and!; [done| |apply NoDup_flatnonzero_eq].
      intros s Hs Hs'%elem_of_flatnonzero_eq.
      destruct (Hinv s g Hs Hs') as [_ [->|Hnot]]; [tauto|].
      apply Hnot. by left.
    + intros s g' [Hs|Hs%elem_of_flatnonzero_eq]%elem_of_app Hg'.
      * destruct (Hinv s g' Hs Hg') as [? [?|Hnot]]; [by auto|].
        split; [done|]. right. intros ?. apply Hnot. by right.
      * assert (g' = g) as -> by congruence. split; [tauto|]. by right.
    + exists train. split_and!; [done| |done..].
      etrans; [|done]. by apply prefix_app_r.
Qed.

(** The growth loop always ends, and only appends samples. *)
Lemma grow_train_total M n_train (gi : list nat) train_idx test_idx sorted_groups :
  Forall (λ g, g < M) sorted_groups →
  ∀ train0, ∃ train_indices,
    grow_train n_train gi (seq 0 M) train_idx test_idx sorted_groups train0
      = Some train_indices ∧
    train0 `prefix_of` train_indices ∧
    (∀ s, s ∈ train_indices → s ∈ train0 ∨ s < length gi).
Proof.
  induction 1 as [|g rest HgM _ IH]; intros train0; simpl.
  { exists train0. split_and!; [done..|]. by left. }
  case_decide; [exists train0; split_and!; [done..|]; by left|].
  case_decide; [apply IH|].
  rewrite lookup_seq_lt by done. simpl.
  destruct (IH (train0 ++ flatnonzero_eq gi g)) as (train & -> & Hpre & Hlt).
  exists train. split_and!; [done| |].
  - etrans; [|done]. by apply prefix_app_r.
  - intros s [[Hs|Hs%elem_of_flatnonzero_eq%lookup_lt_Some]%elem_of_app|Hs]%Hlt;
      auto.
Qed.

Lemma members_lt (gi : list nat) g s : s ∈ members gi g → s < length gi.
Proof. by intros Hs%elem_of_flatnonzero_eq%lookup_lt_Some. Qed.

Lemma argsort_row_lt M (m : list (list Q)) i row :
  square M m → m !! i = Some row → Forall (λ g, g < M) (argsort row).
Proof.
  intros [_ Hrows] Hrow. rewrite Forall_forall in Hrows.
  apply Forall_forall. intros g Hg%argsort_lt.
  rewrite (Hrows row) in Hg; [done|]. by eapply list_elem_of_lookup_2.
Qed.

(** A trial on a well-formed clustering returns: the train array starts
    with the members of the train anchor, the test array with those of the
    test anchor. *)
Lemma maxdis_trial_total M n_train (gi : list nat) (m : list (list Q)) :
  dedup_inverse M gi → square M m → 0 < M →
  ∃ test_idx train_idx train_indices test_indices,
    anchors m = Some (test_idx, train_idx) ∧
    trial n_train gi m = Some (train_indices, test_indices) ∧
    members gi train_idx `prefix_of` train_indices ∧
    members gi test_idx `prefix_of` test_indices.
Proof.
  intros Hgi Hsq HM.
  destruct (anchors_spec M m Hsq HM)
    as (t & r & row & v & Hanch & Ht & Hr & Hrow & _).
  destruct (lookup_lt_is_Some_2 m r) as [row_r Hrow_r];
    [rewrite (proj1 Hsq); lia|].
  destruct (grow_train_total M n_train gi r t (argsort row_r)
              (argsort_row_lt _ _ _ _ Hsq Hrow_r) (members gi r))
    as (train & Hgrow & Hpre & _).
  exists t, r, train. eexists. unfold trial. rewrite Hanch. simpl.
  rewrite (seed_spec M) by done. simpl. rewrite Hrow_r. simpl.
  rewrite (unique_dedup_inverse M) by done. rewrite Hgrow. simpl.
  split_and!; [done..|]. by apply prefix_app_r.
Qed.

(** With distinct anchors, the two index arrays list every sample once. *)
Lemma maxdis_trial_partition M n_train (gi : list nat) (m : list (list Q))
    test_idx train_idx :
  dedup_inverse M gi → square M m → 0 < M →
  anchors m = Some (test_idx, train_idx) → test_idx ≠ train_idx →
  ∃ train_indices test_indices,
    trial n_train gi m = Some (train_indices, test_indices) ∧
    train_indices ++ test_indices ≡ₚ seq 0 (length gi).
Proof.
  intros Hgi Hsq HM Hanch Hne.
  destruct (anchors_spec M m Hsq HM)
    as (t & r & row & v & Hanch' & Ht & Hr & Hrow & _).
  rewrite Hanch in Hanch'. injection Hanch' as <- <-.
  destruct (lookup_lt_is_Some_2 m train_idx) as [row_r Hrow_r];
    [rewrite (proj1 Hsq); lia|].
  pose proof (argsort_row_lt _ _ _ _ Hsq Hrow_r) as Hlt.
  destruct (grow_train_total M n_train gi train_idx test_idx (argsort row_r)
              Hlt (members gi train_idx)) as (train & Hgrow & _ & Hrange).
  destruct (grow_train_spec M n_train gi train_idx test_idx (argsort row_r)
              (NoDup_argsort _) Hlt (members gi train_idx))
    as (train' & Hgrow' & _ & Hnd & Hfree).
  { apply NoDup_flatnonzero_eq. }
  { intros s g Hs%elem_of_flatnonzero_eq Hg.
    assert (g = train_idx) as -> by congruence. auto. }
  rewrite Hgrow in Hgrow'. injection Hgrow' as <-.
  eexists train, _. unfold trial. rewrite Hanch. simpl.
  rewrite (seed_spec M) by done. simpl. rewrite Hrow_r. simpl.
  rewrite (unique_dedup_inverse M) by done. rewrite Hgrow. simpl.
  split; [done|].
  assert (∀ s, s ∈ train → s < length gi) as Hrange'.
  { intros s [Hs%members_lt|Hs]%Hrange; done. }
  apply NoDup_Permutation; [|apply NoDup_seq|].
  - apply NoDup_app. split_and!; [done| |].
    + intros s Hs [Hs'%elem_of_flatnonzero_eq|Hs']%elem_of_app.
      * by apply (Hfree s).
      * apply elem_of_elements, elem_of_difference in Hs' as [Hs' _].
        apply elem_of_difference in Hs' as [_ Hs'].
        apply Hs', elem_of_list_to_set, Hs.
    + apply NoDup_app. split_and!; [apply NoDup_flatnonzero_eq| |apply NoDup_elements].
      intros s Hs Hs'. apply elem_of_elements, elem_of_difference in Hs' as [_ Hs'].
      apply Hs', elem_of_list_to_set, Hs.
  - intros s. rewrite !elem_of_app, elem_of_elements, !elem_of_difference,
      !elem_of_list_to_set, !elem_of_seq. split.
    + intros [Hs|[Hs%members_lt|[[[_ Hs] _] _]]]; auto with lia.
    + intros [_ Hs]. destruct (decide (s ∈ train)); [by left|right].
      destruct (decide (s ∈ members gi test_idx)); [by left|right].
      split_and!; [lia|done..].
Qed.

(** Distinct centres give distinct anchors. *)
Lemma anchors_distinct M (m : list (list Q)) test_idx train_idx :
  square M m → zero_diagonal m → positive_off_diagonal m → 2 ≤ M →
  anchors m = Some (test_idx, train_idx) → test_idx ≠ train_idx.
Proof.
  intros Hsq Hdiag Hpos HM Hanch ->.
  destruct (anchors_spec M m Hsq)
    as (t & r & row & v & Hanch' & Ht & Hr & Hrow & Hv & _ & Hmax & _); [lia|].
  rewrite Hanch in Hanch'. injection Hanch' as <- <-.
  unfold zero_diagonal in Hdiag. rewrite Forall_seq, (proj1 Hsq) in Hdiag.
  specialize (Hdiag train_idx). unfold get2 in Hdiag.
  rewrite Hrow in Hdiag. simpl in Hdiag. rewrite Hv in Hdiag. simpl in Hdiag.
  set (g := if decide (train_idx = 0) then 1 else 0).
  assert (g ≠ train_idx ∧ g < M) as [Hg HgM].
  { unfold g. case_decide; lia. }
  destruct (get2_square M m train_idx g Hsq Hr HgM) as [x Hx].
  pose proof (Hpos train_idx g x (not_eq_sym Hg) Hx) as Hxpos.
  unfold get2 in Hx. rewrite Hrow in Hx. simpl in Hx.
  specialize (Hmax g x Hx). rewrite Hdiag in Hmax by lia.
  by apply Qlt_not_le in Hxpos.
Qed.
End maxdis_facts.

Section coverage_claims.
Import Numpy Clustering.




(** C9. When the clustering yields a single distinct centre, both anchors
    are group 0 and the trial returns every sample index in the train array
    and in the test array. *)
Theorem maxdis_single_group_on_both_sides n_train gi distance_matrix :
  dedup_inverse 1 gi → square 1 distance_matrix →
  MaxDissimilarity.anchors distance_matrix = Some (0, 0) ∧
  MaxDissimilarity.trial n_train gi distance_matrix
    = Some (seq 0 (length gi), seq 0 (length gi)).
Proof.
  intros Hgi Hsq.
  destruct (anchors_spec 1 _ Hsq)
    as (t & r & row & v & Hanch & Ht & Hr & Hrow & Hv & _); [lia|].
  assert (t = 0) as -> by lia. assert (r = 0) as -> by lia.
  split; [done|].
  assert (flatnonzero_eq gi 0 = seq 0 (length gi)) as Hall.
  { apply filter_all, Forall_seq. intros s Hs.
    destruct (lookup_lt_is_Some_2 gi s) as [g Hg]; [lia|].
    apply (lookup_dedup_inverse 1) in Hg as Hg0; [|done].
    by replace g with 0 in Hg by lia. }
  assert (∃ d, row = [d]) as [d ->].
  { destruct Hsq as [_ Hrows]. rewrite Forall_forall in Hrows.
    specialize (Hrows row (list_elem_of_lookup_2 _ _ _ Hrow)).
    destruct row as [|d [|??]]; try done. by exists d. }
  unfold MaxDissimilarity.trial. rewrite Hanch. simpl.
  rewrite (seed_spec 1) by (done || lia). simpl. rewrite Hrow. simpl.
  unfold members. rewrite Hall.
  repeat case_decide; try tauto; simpl.
  all: replace (list_to_set (seq 0 (length gi)) ∖ list_to_set (seq 0 (length gi))
           ∖ list_to_set (seq 0 (length gi)) : gset nat) with (∅ : gset nat)
         by (apply set_eq; intros s;
             rewrite !elem_of_difference, elem_of_empty; tauto).
  all: by rewrite elements_empty, (right_id_L [] (++)).
Qed.

Lemma maxdis_single_group_on_both_sides_witness :
  MaxDissimilarity.anchors one_cluster_distances = Some (0, 0) ∧
  MaxDissimilarity.trial 2 one_cluster_groups one_cluster_distances
    = Some (seq 0 (length one_cluster_groups),
            seq 0 (length one_cluster_groups)).
Proof.
  apply (maxdis_single_group_on_both_sides 2 one_cluster_groups
           one_cluster_distances); vm_compute; repeat constructor.
Defined.

(** C1, on the degenerate input: the trial returns every index twice, so
    the sorted concatenation of the two arrays is not [0 .. N-1]. *)
Theorem maxdis_single_group_breaks_coverage :
  MaxDissimilarity.trial 2 one_cluster_groups one_cluster_distances
    = Some ([0; 1; 2], [0; 1; 2]) ∧
  merge_sort (≤) ([0; 1; 2] ++ [0; 1; 2]) = [0; 0; 1; 1; 2; 2] ∧
  merge_sort (≤) ([0; 1; 2] ++ [0; 1; 2]) ≠ seq 0 (length one_cluster_groups) ∧
  ¬ NoDup ([0; 1; 2] ++ [0; 1; 2]).
Proof.
  split_and!; [by vm_compute..|].
  intros Hnd. apply NoDup_app in Hnd as (_ & Hdisj & _).
  apply (Hdisj 0); by left.
Qed.

(** C1, where it holds: every PerimeterSplit trial on a well-formed
    clustering returns two arrays whose concatenation is a permutation of
    [0 .. N-1]. *)
Lemma perimeter_coverage M n_test gi distance_matrix :
  dedup_inverse M gi → square M distance_matrix →
  ∃ train_indices test_indices,
    Perimeter.trial n_test gi distance_matrix
      = Some (train_indices, test_indices) ∧
    train_indices ++ test_indices ≡ₚ seq 0 (length gi) ∧
    merge_sort (≤) (train_indices ++ test_indices) = seq 0 (length gi).
Proof.
  intros Hgi Hsq.
  destruct (trial_partition M n_test gi Hgi _ Hsq) as (train & test & ? & Hperm).
  exists train, test. split_and!; [done..|].
  by apply sorted_range.
Qed.

(** X6. Every trial that [PerimeterSplit._iter_indices] yields on
    well-formed clusterings is such a partition: sorted, its two arrays
    together are [0 .. N-1]. *)
Lemma perimeter_iter_indices_coverage n_splits n_test clustering N :
  (∀ i, i < n_splits → length (clustering i).1 = N ∧
     ∃ M, dedup_inverse M (clustering i).1 ∧ square M (clustering i).2) →
  Forall (λ yielded, ∃ train_indices test_indices,
            yielded = Some (train_indices, test_indices) ∧
            merge_sort (≤) (train_indices ++ test_indices) = seq 0 N)
    (Perimeter._iter_indices n_splits n_test clustering).
Proof.
  intros Hwf. unfold Perimeter._iter_indices.
  apply Forall_fmap, Forall_seq. intros i Hi. simpl.
  destruct (Hwf i) as (<- & M & Hgi & Hsq); [lia|].
  destruct (perimeter_coverage M n_test _ _ Hgi Hsq)
    as (train & test & ? & _ & ?).
  by exists train, test.
Qed.

(** X7. C1, where it holds: a MaxDissimilaritySplit trial on at least two
    distinct centres, which lie at positive distances from one another,
    returns two arrays whose concatenation is a permutation of
    [0 .. N-1]. *)
Lemma maxdis_coverage M n_train gi distance_matrix :
  dedup_inverse M gi → square M distance_matrix →
  zero_diagonal distance_matrix → positive_off_diagonal distance_matrix →
  2 ≤ M →
  ∃ train_indices test_indices,
    MaxDissimilarity.trial n_train gi distance_matrix
      = Some (train_indices, test_indices) ∧
    train_indices ++ test_indices ≡ₚ seq 0 (length gi) ∧
    merge_sort (≤) (train_indices ++ test_indices) = seq 0 (length gi).
Proof.
  intros Hgi Hsq Hdiag Hpos HM.
  destruct (anchors_spec M _ Hsq) as (t & r & _ & _ & Hanch & _); [lia|].
  destruct (maxdis_trial_partition M n_train gi distance_matrix t r)
    as (train & test & ? & Hperm); [done|done|lia|done| |].
  { by apply (anchors_distinct M distance_matrix). }
  exists train, test. split_and!; [done..|].
  by apply sorted_range.
Qed.
End coverage_claims.

(** ** [MOODSplitter] *)
Section prescriber_facts.
Import Prescriber.
Context {Row Axes : Type}.
Variable knn_mean_distance :
  string → nat → nat → option (list Row) → list Row → result (list R).
Variable score_representativeness : list R → list R → result float.
Variable np_mean : list float → float.
Variable rank : list float → result (list float).
Variable visualize : list R → list SplitCharacterization → result Axes.

Abbreviation MOODSplitter := (@MOODSplitter Row).
Abbreviation _compute_distance := (_compute_distance knn_mean_distance).
Abbreviation characterize_trials :=
  (characterize_trials knn_mean_distance score_representativeness).
Abbreviation characterize_splitters :=
  (characterize_splitters knn_mean_distance score_representativeness np_mean).
Abbreviation report := (report rank visualize).
Abbreviation fit :=
  (fit knn_mean_distance score_representativeness np_mean rank visualize).
Abbreviation fit_with :=
  (fit_with knn_mean_distance score_representativeness np_mean rank visualize).
Abbreviation fit_sequence :=
  (fit_sequence knn_mean_distance score_representativeness np_mean rank
     visualize).

Lemma characterize_trials_self self self' name d X trials chars :
  _metric self = _metric self' → _p self = _p self' → _k self = _k self' →
  characterize_trials self name d X trials chars
  = characterize_trials self' name d X trials chars.
Proof.
  intros Hm Hp Hk. revert chars.
  induction trials as [|[[train test]|e] trials IH]; intros chars; simpl; [done| |done].
  destruct (take_rows X test) as [X_test|]; simpl; [|done].
  destruct (take_rows X train) as [X_train|]; simpl; [|done].
  unfold Prescriber._compute_distance. rewrite Hm, Hp, Hk.
  destruct (knn_mean_distance _ _ _ _ _) as [dist|]; simpl; [|done].
  destruct (score_representativeness _ _); simpl; [|done].
  apply IH.
Qed.

Lemma characterize_splitters_self self self' d X items split_chars :
  _metric self = _metric self' → _p self = _p self' → _k self = _k self' →
  characterize_splitters self d X items split_chars
  = characterize_splitters self' d X items split_chars.
Proof.
  intros Hm Hp Hk. revert split_chars.
  induction items as [|[name splitter] items IH]; intros split_chars; simpl; [done|].
  rewrite (characterize_trials_self self self') by done.
  destruct (Prescriber.characterize_trials _ _ _ _ _ _ _ _); simpl; [|done].
  destruct (concat _ _); simpl; [|done]. apply IH.
Qed.

Lemma report_unfold d split_chars plot :
  report d split_chars plot =
  match as_dataframe rank split_chars with
  | Raise e => Raise e
  | Ok _ =>
      if plot then
        match visualize d split_chars with
        | Ok ax => Ok (Some ax)
        | Raise e => Raise e
        end
      else Ok None
  end.
Proof.
  unfold Prescriber.report. destruct (as_dataframe rank split_chars); [|done].
  simpl. by destruct plot.
Qed.

Lemma fit_unfold X X_deployment plot (self : MOODSplitter) :
  fit X X_deployment plot self =
  match _downstream_distances self with
  | Some d => fit_with X d plot self
  | None =>
      match _compute_distance self X_deployment X with
      | Ok d => fit_with X d plot (set_downstream_distances d self)
      | Raise e => (Raise e, self)
      end
  end.
Proof.
  unfold Prescriber.fit, Prescriber.fit_with, mbind, method_mbind, method_bind,
    get_self, call, update, mret, method_mret, method_ret.
  destruct (_downstream_distances self) as [d|] eqn:Hd; simpl.
  - destruct (Prescriber.characterize_splitters _ _ _ _ _ _ _ _)
      as [split_chars|]; [|done].
    destruct (best split_chars) as [chosen|]; [|done].
    rewrite report_unfold.
    destruct (as_dataframe rank split_chars); [|done].
    destruct plot; [|done]. by destruct (visualize d split_chars).
  - destruct (_compute_distance self X_deployment X) as [d|]; simpl; [|done].
    destruct (Prescriber.characterize_splitters _ _ _ _ _ _ _ _)
      as [split_chars|]; [|done].
    destruct (best split_chars) as [chosen|]; [|done].
    rewrite report_unfold.
    destruct (as_dataframe rank split_chars); [|done].
    destruct plot; [|done]. by destruct (visualize d split_chars).
Qed.

Lemma fit_with_downstream_distances X d plot self :
  _downstream_distances (fit_with X d plot self).2 = _downstream_distances self.
Proof.
  unfold Prescriber.fit_with.
  destruct (Prescriber.characterize_splitters _ _ _ _ _ _ _ _)
    as [split_chars|]; [|done].
  by destruct (best split_chars).
Qed.


Lemma fit_keeps_downstream_distances X X_deployment plot self d :
  _downstream_distances self = Some d →
  _downstream_distances (fit X X_deployment plot self).2 = Some d.
Proof. intros Hd. by rewrite fit_unfold, Hd, fit_with_downstream_distances. Qed.

Lemma fit_sequence_keeps_downstream_distances calls self d :
  _downstream_distances self = Some d →
  _downstream_distances (fit_sequence calls self).2 = Some d.
Proof.
  revert self.
  induction calls as [|[[X X_deployment] plot] calls IH]; intros self Hd;
    simpl; [done|].
  pose proof (fit_keeps_downstream_distances X X_deployment plot self d Hd)
    as Hd'.
  destruct (fit X X_deployment plot self) as [outcome self'].
  specialize (IH self' Hd'). by destruct (fit_sequence calls self').
Qed.


End prescriber_facts.

Section prescriber_claims.
Import Prescriber.
Context {Row Axes : Type}.
Variable knn_mean_distance :
  string → nat → nat → option (list Row) → list Row → result (list R).
Variable score_representativeness : list R → list R → result float.
Variable np_mean : list float → float.
Variable rank : list float → result (list float).
Variable visualize : list R → list SplitCharacterization → result Axes.

Abbreviation MOODSplitter := (@MOODSplitter Row).
Abbreviation _compute_distance := (_compute_distance knn_mean_distance).
Abbreviation characterize_splitters :=
  (characterize_splitters knn_mean_distance score_representativeness np_mean).
Abbreviation fit :=
  (fit knn_mean_distance score_representativeness np_mean rank visualize).
Abbreviation fit_sequence :=
  (fit_sequence knn_mean_distance score_representativeness np_mean rank
     visualize).


(** C10. [fit] computes and stores the downstream distances only when none
    are stored: stored ones survive every [fit] and make its outcome
    independent of [X_deployment]; without stored ones, the distances
    computed from [X_deployment] are stored, also when [fit] raises later,
    and nothing changes when computing them raises.  The constructor
    stores the sample it is given. *)
Theorem fit_downstream_distances_frame
    (X : list Row) (X_deployment : option (list Row)) (plot : bool)
    (self : MOODSplitter) :
  (∀ d, _downstream_distances self = Some d →
     _downstream_distances (fit X X_deployment plot self).2 = Some d ∧
     (∀ X_deployment',
        fit X X_deployment' plot self = fit X X_deployment plot self) ∧
     ∀ calls, _downstream_distances (fit_sequence calls self).2 = Some d) ∧
  (_downstream_distances self = None →
     (∀ d, _compute_distance self X_deployment X = Ok d →
        _downstream_distances (fit X X_deployment plot self).2 = Some d) ∧
     (∀ e, _compute_distance self X_deployment X = Raise e →
        fit X X_deployment plot self = (Raise e, self))) ∧
  (∀ splitters downstream_distances metric p k self0,
     __init__ (Row:=Row) splitters downstream_distances metric p k = Ok self0 →
     _downstream_distances self0 = downstream_distances).
Proof.
  split_and!.
  - intros d Hd. split_and!.
    + by apply fit_keeps_downstream_distances.
    + intros X_deployment'. by rewrite !fit_unfold, Hd.
    + intros calls. by apply fit_sequence_keeps_downstream_distances.
  - intros Hd. split.
    + intros d Hcd. by rewrite fit_unfold, Hd, Hcd, fit_with_downstream_distances.
    + intros e Hcd. by rewrite fit_unfold, Hd, Hcd.
  - intros splitters dd metric p k self0. unfold __init__.
    case_decide; [|done]. destruct (_ <$> splitters); [done|].
    by intros [= <-].
Qed.
End prescriber_claims.

Section prescriber_samples.
Import Prescriber.

Abbreviation sample_fit :=
  (fit line_knn sample_score sample_mean sample_rank no_display).


End prescriber_samples.

(** * Further properties *)

Section numpy_sorting_facts.
Import Numpy Clustering.

Lemma insert_by_value_sorted x l :
  StronglySorted (λ a b : nat * Q, (a.2 <= b.2)%Q) l →
  StronglySorted (λ a b : nat * Q, (a.2 <= b.2)%Q) (insert_by_value x l).
Proof.
  induction 1 as [|y l Hl IH Hy]; simpl; [repeat constructor|].
  destruct (Qle_bool x.2 y.2) eqn:Hcmp.
  - apply Qle_bool_iff in Hcmp. constructor; [by constructor|].
    constructor; [done|]. eapply Forall_impl; [done|]. simpl.
    intros z Hz. by eapply Qle_trans.
  - constructor; [done|].
    rewrite insert_by_value_perm. constructor; [|done].
    apply Qlt_le_weak, Qnot_le_lt. intros Hc%Qle_bool_iff. congruence.
Qed.

Lemma elem_of_zip_seq (v : list Q) k i x :
  (i, x) ∈ zip (seq k (length v)) v → k ≤ i ∧ v !! (i - k) = Some x.
Proof.
  revert k. induction v as [|y v IH]; intros k; simpl.
  { by intros ?%elem_of_nil. }
  intros [[= -> ->]|Hin]%elem_of_cons.
  - split; [lia|]. by rewrite Nat.sub_diag.
  - apply IH in Hin as [Hk Hx]. split; [lia|].
    replace (i - k) with (S (i - S k)) by lia. done.
Qed.

(** The value at position [i] of [v] is at most the value at [j]. *)

(** [argsort] lists the positions by ascending value. *)
Lemma argsort_sorted v : StronglySorted (value_le v) (argsort v).
Proof.
  unfold argsort. set (l := zip (seq 0 (length v)) v).
  assert (StronglySorted (λ a b : nat * Q, (a.2 <= b.2)%Q)
            (foldr insert_by_value [] l)) as Hsorted0.
  { induction l as [|a l IH]; simpl; [constructor|].
    by apply insert_by_value_sorted. }
  assert (Forall (λ a : nat * Q, v !! a.1 = Some a.2)
            (foldr insert_by_value [] l)) as Hval.
  { assert (foldr insert_by_value [] l ≡ₚ l) as ->.
    { clear. induction l as [|x l IH]; simpl; [done|].
      by rewrite insert_by_value_perm, IH. }
    apply Forall_forall. intros [i x] Hin%elem_of_zip_seq. simpl.
    destruct Hin as [_ Hx]. by rewrite Nat.sub_0_r in Hx. }
  revert Hsorted0 Hval. generalize (foldr insert_by_value [] l). clear l.
  intros s Hsorted.
  induction Hsorted as [|a s Hs IH Ha]; intros Hval; [constructor|].
  apply Forall_cons_1 in Hval as [Hva Hvs]. rewrite fmap_cons.
  constructor; [by apply IH|].
  apply Forall_fmap, Forall_forall. intros b Hb. simpl.
  rewrite Forall_forall in Ha, Hvs.
  exists a.2, b.2. split_and!; [done|by apply Hvs|by apply Ha].
Qed.

Lemma StronglySorted_reverse {A} (R : relation A) l :
  StronglySorted R l → StronglySorted (flip R) (reverse l).
Proof.
  induction 1 as [|x l Hl IH Hx]; [constructor|].
  rewrite reverse_cons. apply StronglySorted_app_2; [|done|repeat constructor].
  intros y z Hy ->%list_elem_of_singleton. rewrite elem_of_reverse in Hy.
  rewrite Forall_forall in Hx. unfold flip. by apply Hx.
Qed.

Lemma StronglySorted_sublist {A} (R : relation A) l k :
  k `sublist_of` l → StronglySorted R l → StronglySorted R k.
Proof.
  induction 1 as [|x k l Hsub IH|x k l Hsub IH]; intros Hl; [done| |].
  - apply StronglySorted_cons in Hl as [Hx Hl].
    constructor; [by apply IH|].
    apply Forall_forall. intros y Hy. rewrite Forall_forall in Hx.
    apply Hx. by eapply elem_of_sublist.
  - apply StronglySorted_cons in Hl as [_ Hl]. by apply IH.
Qed.
End numpy_sorting_facts.

Section perimeter_pairs.
Import Numpy Clustering Perimeter.
Variables (M n_test : nat) (gi : list nat).

Lemma scan_pairs_assigned tril order :
  (∀ i j, (i, j) ∈ tril → i ≠ j) →
  ∀ test0 remaining0 test_indices remaining,
    (∀ g, g ∈ remaining0 → g < M) →
    scan_pairs n_test gi (seq 0 M) tril order test0 remaining0
      = Some (test_indices, remaining) →
    ∃ pairs,
      pairs `sublist_of` omap (λ pos, tril !! pos) order ∧
      test_indices = test0 ++ (pairs ≫= pair_members gi) ∧
      (∀ g, g ∈ remaining ↔ g ∈ remaining0 ∧ g ∉ pair_groups pairs) ∧
      NoDup (pair_groups pairs) ∧
      (∀ g, g ∈ pair_groups pairs → g ∈ remaining0) ∧
      (length test_indices < n_test →
         ∀ ij, ij ∈ omap (λ pos, tril !! pos) order →
           ¬ (ij.1 ∈ remaining ∧ ij.2 ∈ remaining)).
Proof.
  intros Htril. induction order as [|pos order IH];
    intros test0 R0 test R HR0 Hscan; simpl in Hscan.
  { injection Hscan as <- <-. exists []. split_and!.
    - constructor.
    - simpl. by rewrite (right_id_L [] (++)).
    - intros g. split; [intros ?; split; [done|by intros ?%elem_of_nil]|tauto].
    - constructor.
    - by intros g ?%elem_of_nil.
    - by intros _ ij ?%elem_of_nil. }
  case_decide as Hfull.
  { injection Hscan as <- <-. exists []. split_and!.
    - apply sublist_nil_l.
    - simpl. by rewrite (right_id_L [] (++)).
    - intros g. split; [intros ?; split; [done|by intros ?%elem_of_nil]|tauto].
    - constructor.
    - by intros g ?%elem_of_nil.
    - lia. }
  destruct (tril !! pos) as [[i j]|] eqn:Hpos; [|done]. simpl in Hscan.
  assert (i ≠ j) as Hne by (eapply Htril, list_elem_of_lookup_2, Hpos).
  assert (omap (λ pos, tril !! pos) (pos :: order)
          = (i, j) :: omap (λ pos, tril !! pos) order) as ->
    by (simpl; by rewrite Hpos).
  case_decide as Hboth.
  - destruct Hboth as [Hi Hj].
    rewrite !lookup_seq_lt in Hscan by (by apply HR0). simpl in Hscan.
    apply IH in Hscan as (pairs & Hsub & -> & HR & Hnd & Hin & Hlow).
    2:{ intros g [[Hg _]%elem_of_difference _]%elem_of_difference. by apply HR0. }
    assert (∀ g, g ∈ pair_groups pairs → g ∈ R0 ∧ g ≠ i ∧ g ≠ j) as Hin'.
    { intros g Hg%Hin. rewrite !elem_of_difference, !elem_of_singleton in Hg.
      tauto. }
    exists ((i, j) :: pairs). split_and!.
    + by constructor.
    + unfold pair_members at 2. rewrite bind_cons. simpl.
      by rewrite <-!(assoc_L (++)).
    + intros g. rewrite HR, !elem_of_difference, !elem_of_singleton.
      unfold pair_groups. rewrite bind_cons. simpl.
      rewrite !elem_of_cons. fold (pair_groups pairs). tauto.
    + unfold pair_groups. rewrite bind_cons. simpl. fold (pair_groups pairs).
      repeat constructor; [|by intros [? [? ?]]%Hin'|done].
      rewrite elem_of_cons. intros [?|[? [? ?]]%Hin']; done.
    + unfold pair_groups. rewrite bind_cons. simpl. fold (pair_groups pairs).
      intros g Hg. rewrite !elem_of_cons in Hg.
      destruct Hg as [->|[->|[? _]%Hin']]; done.
    + intros Hlen ij [->|Hij]%elem_of_cons; [|by apply Hlow].
      simpl. intros [Hi' _]. apply HR in Hi' as [Hi' _].
      rewrite !elem_of_difference, !elem_of_singleton in Hi'. tauto.
  - apply IH in Hscan as (pairs & Hsub & -> & HR & Hnd & Hin & Hlow); [|done].
    exists pairs. split_and!; [by constructor|done..|].
    intros Hlen ij [->|Hij]%elem_of_cons; [|by apply Hlow].
    simpl. intros [Hi' Hj']. apply HR in Hi' as [Hi' _].
    apply HR in Hj' as [Hj' _]. tauto.
Qed.

Lemma scan_pairs_first tril pos order i j remaining0 test_indices remaining :
  (∀ i j, (i, j) ∈ tril → i ≠ j) →
  (∀ g, g ∈ remaining0 → g < M) →
  0 < n_test → tril !! pos = Some (i, j) →
  i ∈ remaining0 → j ∈ remaining0 →
  scan_pairs n_test gi (seq 0 M) tril (pos :: order) [] remaining0
    = Some (test_indices, remaining) →
  ∃ rest, test_indices = members gi i ++ members gi j ++ rest.
Proof.
  intros Htril HR0 Hn Hpos Hi Hj Hscan. simpl in Hscan.
  case_decide; [lia|]. rewrite Hpos in Hscan. simpl in Hscan.
  case_decide; [|tauto].
  rewrite !lookup_seq_lt in Hscan by (by apply HR0). simpl in Hscan.
  apply scan_pairs_assigned in Hscan as (pairs & _ & -> & _); [|done|].
  - eexists. by rewrite <-(assoc_L (++)).
  - intros g [[Hg _]%elem_of_difference _]%elem_of_difference. by apply HR0.
Qed.
End perimeter_pairs.

Section perimeter_order.
Import Numpy Clustering Perimeter.
Variables (M n_test : nat) (gi : list nat).
Hypothesis Hgi : dedup_inverse M gi.

Lemma omap_StronglySorted {A B} (f : A → option B)
    (R1 : relation A) (R2 : relation B) l :
  (∀ x y a b, R1 x y → f x = Some a → f y = Some b → R2 a b) →
  StronglySorted R1 l → StronglySorted R2 (omap f l).
Proof.
  intros Hf. induction 1 as [|x l Hl IH Hx]; simpl; [constructor|].
  destruct (f x) as [a|] eqn:Ha; [|done]. constructor; [done|].
  apply Forall_forall. intros b (y & Hy & Hb)%list_elem_of_omap.
  rewrite Forall_forall in Hx. eapply Hf; [by apply Hx|done..].
Qed.

(** The pairs in scan order: all of them, by non-increasing distance. *)
Lemma order_pairs_spec distance_matrix :
  square M distance_matrix →
  ∃ order,
    maximum_distance_indices distance_matrix = Some order ∧
    (∀ ij, ij ∈ omap (λ pos, tril_indices M !! pos) order
           ↔ ij ∈ tril_indices M) ∧
    StronglySorted
      (λ a b, (pair_distance distance_matrix b
               <= pair_distance distance_matrix a)%Q)
      (omap (λ pos, tril_indices M !! pos) order).
Proof.
  intros Hsq. unfold maximum_distance_indices. rewrite (proj1 Hsq).
  destruct (mapM_is_Some_2 (λ ij, get2 distance_matrix ij.1 ij.2)
              (tril_indices M)) as [vals Hvals].
  { apply Forall_forall. intros [i j] Hij%elem_of_tril_indices.
    apply (get2_square M); simpl; [done|lia..]. }
  rewrite Hvals. simpl. eexists; split; [done|].
  pose proof (length_mapM _ _ _ Hvals) as Hlen.
  apply mapM_Some in Hvals. split.
  - intros ij. rewrite list_elem_of_omap. split.
    + intros (pos & _ & Hpos). by eapply list_elem_of_lookup_2.
    + intros (pos & Hpos)%list_elem_of_lookup_1. exists pos. split; [|done].
      apply elem_of_reverse. rewrite argsort_perm, elem_of_seq.
      apply lookup_lt_Some in Hpos. lia.
  - apply (omap_StronglySorted _ (flip (value_le vals))).
    + intros a b ija ijb (x & y & Hx & Hy & Hle) Ha Hb.
      destruct (Forall2_lookup_l _ _ _ _ _ Hvals Ha) as (ya & Hya & Hga).
      destruct (Forall2_lookup_l _ _ _ _ _ Hvals Hb) as (yb & Hyb & Hgb).
      unfold pair_distance. rewrite Hga, Hgb. simpl.
      by replace ya with y by congruence; replace yb with x by congruence.
    + apply StronglySorted_reverse, argsort_sorted.
Qed.

(** One trial, in terms of the pairs it assigns to the test array. *)
Lemma trial_pairs distance_matrix :
  square M distance_matrix →
  ∃ test_indices (remaining : gset nat) pairs order,
    trial n_test gi distance_matrix
      = Some (elements remaining ≫= members gi, test_indices) ∧
    maximum_distance_indices distance_matrix = Some order ∧
    pairs `sublist_of` omap (λ pos, tril_indices M !! pos) order ∧
    test_indices = pairs ≫= pair_members gi ∧
    (∀ g, g ∈ remaining ↔ g < M ∧ g ∉ pair_groups pairs) ∧
    NoDup (pair_groups pairs) ∧
    (length test_indices < n_test →
       ∀ ij, ij ∈ tril_indices M →
         ¬ (ij.1 ∈ remaining ∧ ij.2 ∈ remaining)).
Proof.
  intros Hsq.
  destruct (trial_spec M n_test gi Hgi _ Hsq)
    as (test & R & Hscan & Htrial & _ & _).
  destruct (order_pairs_spec _ Hsq) as (order & Horder & Hall & _).
  unfold scan in Hscan. rewrite Horder in Hscan. simpl in Hscan.
  rewrite (unique_dedup_inverse M), (proj1 Hsq) in Hscan by done.
  apply scan_pairs_assigned in Hscan
    as (pairs & Hsub & Htest & HR & Hnd & _ & Hlow).
  - exists test, R, pairs, order. split_and!; [done..| |done|].
    + intros g. rewrite HR, elem_of_list_to_set, elem_of_seq.
      split; intros [? ?]; split; (done || lia).
    + intros Hlen ij Hij. apply Hlow; [done|]. by apply Hall.
  - intros i j Hij%elem_of_tril_indices. lia.
  - intros g Hg%elem_of_list_to_set%elem_of_seq. lia.
Qed.
End perimeter_order.

Section perimeter_trials.
Import Numpy Clustering.

(** X1. The test array of a PerimeterSplit trial is made of whole pairs of
    clusters: it lists, pair after pair, the members of both clusters of
    each assigned pair.  No cluster is in two pairs, the pairs come in the
    order of non-increasing centre distance, and the train array holds
    exactly the samples of the clusters in no assigned pair. *)
Theorem perimeter_test_is_pairs M n_test gi distance_matrix :
  dedup_inverse M gi → square M distance_matrix →
  ∃ train_indices test_indices pairs,
    Perimeter.trial n_test gi distance_matrix
      = Some (train_indices, test_indices) ∧
    test_indices = pairs ≫= pair_members gi ∧
    NoDup (pair_groups pairs) ∧
    Forall (λ ij, ij.2 < ij.1 < M) pairs ∧
    StronglySorted
      (λ a b, (pair_distance distance_matrix b
               <= pair_distance distance_matrix a)%Q) pairs ∧
    (∀ s, s ∈ train_indices ↔ ∃ g, gi !! s = Some g ∧ g ∉ pair_groups pairs).
Proof.
  intros Hgi Hsq.
  destruct (trial_pairs M n_test gi Hgi _ Hsq)
    as (test & R & pairs & order & Htrial & Horder & Hsub & Htest & HR & Hnd & _).
  destruct (order_pairs_spec M _ Hsq) as (order' & Horder' & Hall & Hsorted).
  rewrite Horder in Horder'. injection Horder' as <-.
  eexists _, test, pairs. split_and!; [done..| | |].
  - apply Forall_forall. intros [i j] Hij. simpl.
    apply elem_of_tril_indices, Hall. by eapply elem_of_sublist.
  - by eapply StronglySorted_sublist.
  - intros s. rewrite elem_of_members_bind. split.
    + intros (g & Hs & Hg%elem_of_elements%HR). exists g. tauto.
    + intros (g & Hs & Hg). exists g. split; [done|].
      apply elem_of_elements, HR. split; [|done].
      by eapply lookup_dedup_inverse.
Qed.

Lemma perimeter_test_is_pairs_witness :
  ∃ train_indices test_indices pairs,
    Perimeter.trial 2 line_groups line_distances
      = Some (train_indices, test_indices) ∧
    test_indices = pairs ≫= pair_members line_groups ∧
    NoDup (pair_groups pairs) ∧
    Forall (λ ij, ij.2 < ij.1 < 3) pairs ∧
    StronglySorted
      (λ a b, (pair_distance line_distances b
               <= pair_distance line_distances a)%Q) pairs ∧
    (∀ s, s ∈ train_indices
          ↔ ∃ g, line_groups !! s = Some g ∧ g ∉ pair_groups pairs).
Proof.
  apply (perimeter_test_is_pairs 3 2 line_groups line_distances);
    vm_compute; repeat constructor.
Defined.

(** X2. The scan only ends below the target when no pair of clusters is
    left: if the test array is shorter than [n_test], all train samples
    belong to one cluster. *)
Theorem perimeter_below_target_one_group_left M n_test gi distance_matrix :
  dedup_inverse M gi → square M distance_matrix →
  ∃ train_indices test_indices,
    Perimeter.trial n_test gi distance_matrix
      = Some (train_indices, test_indices) ∧
    (length test_indices < n_test →
       ∀ s t, s ∈ train_indices → t ∈ train_indices → gi !! s = gi !! t).
Proof.
  intros Hgi Hsq.
  destruct (trial_pairs M n_test gi Hgi _ Hsq)
    as (test & R & pairs & order & Htrial & _ & _ & _ & HR & _ & Hlow).
  eexists _, test. split; [done|]. intros Hlen s t.
  rewrite !elem_of_members_bind.
  intros (g & Hs & Hg%elem_of_elements) (h & Ht & Hh%elem_of_elements).
  rewrite Hs, Ht. f_equal.
  destruct (decide (g = h)) as [|Hne]; [done|exfalso].
  assert (g < M ∧ h < M) as [HgM HhM] by (split; [by apply HR in Hg as []|by apply HR in Hh as []]).
  destruct (decide (h < g)).
  - apply (Hlow Hlen (g, h)); [apply elem_of_tril_indices; lia|done].
  - apply (Hlow Hlen (h, g)); [apply elem_of_tril_indices; lia|done].
Qed.

Lemma perimeter_below_target_one_group_left_witness :
  ∃ train_indices test_indices,
    Perimeter.trial 9 line_groups line_distances
      = Some (train_indices, test_indices) ∧
    (length test_indices < 9 →
       ∀ s t, s ∈ train_indices → t ∈ train_indices →
         line_groups !! s = line_groups !! t).
Proof.
  apply (perimeter_below_target_one_group_left 3 9 line_groups line_distances);
    vm_compute; repeat constructor.
Defined.

Lemma perimeter_first_pair M n_test gi distance_matrix :
  dedup_inverse M gi → square M distance_matrix → 0 < n_test → 2 ≤ M →
  ∃ train_indices i j rest,
    Perimeter.trial n_test gi distance_matrix
      = Some (train_indices, members gi i ++ members gi j ++ rest) ∧
    j < i < M ∧
    ∀ i' j', j' < i' < M →
      (pair_distance distance_matrix (i', j')
       <= pair_distance distance_matrix (i, j))%Q.
Proof.
  intros Hgi Hsq Hn HM.
  destruct (trial_spec M n_test gi Hgi _ Hsq)
    as (test & R & Hscan & Htrial & _).
  destruct (order_pairs_spec M _ Hsq) as (order & Horder & Hall & Hsorted).
  destruct (maximum_distance_indices_spec M _ Hsq) as (order' & Horder' & Hlt).
  rewrite Horder in Horder'. injection Horder' as <-.
  unfold Perimeter.scan in Hscan. rewrite Horder in Hscan. simpl in Hscan.
  destruct Hsq as [Hlen Hrows]. rewrite Hlen in Hscan.
  rewrite (unique_dedup_inverse M gi Hgi) in Hscan.
  destruct order as [|pos order].
  { exfalso. assert ((1, 0) ∈ tril_indices M) as Hin
      by (apply elem_of_tril_indices; simpl; lia).
    apply Hall in Hin. simpl in Hin. by apply elem_of_nil in Hin. }
  apply Forall_cons_1 in Hlt as [Hpos _].
  apply lookup_lt_is_Some_2 in Hpos as [[i j] Hpos].
  assert (j < i < M) as Hij
    by (apply (elem_of_tril_indices M i j); by eapply list_elem_of_lookup_2).
  eapply scan_pairs_first in Hscan as [rest Hrest]; try done.
  all: try lia.
  - subst test.
    exists (elements R ≫= members gi), i, j, rest. split_and!; [done|lia..|].
    intros i' j' Hij'. simpl in Hsorted. rewrite Hpos in Hsorted.
    apply StronglySorted_cons in Hsorted as [Hhd _].
    assert ((i', j') ∈ (i, j) :: omap (λ pos, tril_indices M !! pos) order)
      as [->|Hin]%elem_of_cons.
    { assert ((i', j') ∈ tril_indices M) as Hin
        by (by apply elem_of_tril_indices).
      apply Hall in Hin. simpl in Hin. by rewrite Hpos in Hin. }
    + apply Qle_refl.
    + rewrite Forall_forall in Hhd. by apply Hhd.
  - intros a b Hab%elem_of_tril_indices. lia.
  - intros g Hg%elem_of_list_to_set%elem_of_seq. lia.
  - apply elem_of_list_to_set, elem_of_seq. lia.
  - apply elem_of_list_to_set, elem_of_seq. lia.
Qed.

(** X3. With a positive target and at least two clusters, the test array
    starts with the members of the two clusters whose centres are farthest
    apart. *)
Theorem perimeter_farthest_pair_first M n_test gi distance_matrix :
  dedup_inverse M gi → square M distance_matrix → 0 < n_test → 2 ≤ M →
  ∃ train_indices i j rest,
    Perimeter.trial n_test gi distance_matrix
      = Some (train_indices, members gi i ++ members gi j ++ rest) ∧
    j < i < M ∧
    ∀ i' j', j' < i' < M →
      (pair_distance distance_matrix (i', j')
       <= pair_distance distance_matrix (i, j))%Q.
Proof. apply perimeter_first_pair. Qed.

Lemma perimeter_farthest_pair_first_witness :
  ∃ train_indices i j rest,
    Perimeter.trial 2 line_groups line_distances
      = Some (train_indices,
              members line_groups i ++ members line_groups j ++ rest) ∧
    j < i < 3 ∧
    ∀ i' j', j' < i' < 3 →
      (pair_distance line_distances (i', j')
       <= pair_distance line_distances (i, j))%Q.
Proof.
  apply (perimeter_farthest_pair_first 3 2 line_groups line_distances);
    vm_compute; repeat constructor.
Defined.

(** X4. With a target of zero, or with fewer than two clusters, no pair is
    assigned: the test array is empty and the train array lists every
    sample once. *)
Theorem perimeter_no_pair_no_test M n_test gi distance_matrix :
  dedup_inverse M gi → square M distance_matrix → n_test = 0 ∨ M ≤ 1 →
  ∃ train_indices,
    Perimeter.trial n_test gi distance_matrix = Some (train_indices, []) ∧
    train_indices ≡ₚ seq 0 (length gi).
Proof.
  intros Hgi Hsq Hedge.
  destruct (trial_partition M n_test gi Hgi _ Hsq)
    as (train & test & Htrial & Hperm).
  destruct (trial_spec M n_test gi Hgi _ Hsq)
    as (test' & R & _ & Htrial' & _ & Hlast).
  rewrite Htrial in Htrial'. injection Htrial' as -> ->.
  destruct Hlast as [->|(before & i & j & Hne & Hi & Hj & Hlen & _)].
  - eexists. split; [done|]. by rewrite (right_id_L [] (++)) in Hperm.
  - lia.
Qed.

Lemma perimeter_no_pair_no_test_witness :
  ∃ train_indices,
    Perimeter.trial 0 line_groups line_distances = Some (train_indices, []) ∧
    train_indices ≡ₚ seq 0 (length line_groups).
Proof.
  apply (perimeter_no_pair_no_test 3 0 line_groups line_distances);
    [(vm_compute; repeat constructor)..|by left].
Defined.

(** X5. With exactly two clusters and a positive target, the one pair takes
    both clusters: the train array is empty and the test array lists every
    sample once. *)
Theorem perimeter_two_groups_all_test n_test gi distance_matrix :
  dedup_inverse 2 gi → square 2 distance_matrix → 0 < n_test →
  ∃ test_indices,
    Perimeter.trial n_test gi distance_matrix = Some ([], test_indices) ∧
    test_indices ≡ₚ seq 0 (length gi).
Proof.
  intros Hgi Hsq Hn.
  destruct (perimeter_first_pair 2 n_test gi _ Hgi Hsq Hn)
    as (train & i & j & rest & Htrial & Hij & _); [lia|].
  destruct (trial_partition 2 n_test gi Hgi _ Hsq)
    as (train' & test & Htrial' & Hperm).
  rewrite Htrial in Htrial'. injection Htrial' as <- <-.
  assert (i = 1 ∧ j = 0) as [-> ->] by lia.
  destruct train as [|s train].
  { eexists. split; [done|]. by rewrite app_nil_l in Hperm. }
  exfalso.
  assert (NoDup ((s :: train) ++ members gi 1 ++ members gi 0 ++ rest)) as Hnd.
  { rewrite Hperm. apply NoDup_seq. }
  apply NoDup_app in Hnd as (_ & Hdisj & _).
  apply (Hdisj s); [by left|].
  assert (s < length gi) as Hs.
  { assert (s ∈ seq 0 (length gi)) as Hin%elem_of_seq; [|lia].
    rewrite <-Hperm. by left. }
  apply lookup_lt_is_Some_2 in Hs as [g Hg].
  assert (g < 2) as Hlt by (by eapply lookup_dedup_inverse).
  rewrite !elem_of_app. unfold members. rewrite !elem_of_flatnonzero_eq.
  destruct g as [|[|]]; [by right; left|by left|lia].
Qed.

Lemma perimeter_two_groups_all_test_witness :
  ∃ test_indices,
    Perimeter.trial 1 two_groups two_distances = Some ([], test_indices) ∧
    test_indices ≡ₚ seq 0 (length two_groups).
Proof.
  apply (perimeter_two_groups_all_test 1 two_groups two_distances);
    vm_compute; repeat constructor.
Defined.
End perimeter_trials.

Section maxdis_groups.
Import Numpy Clustering MaxDissimilarity.

Lemma grow_train_groups M n_train (gi : list nat) r t sorted :
  Forall (λ g, g < M) sorted →
  ∀ train0, ∃ k,
    let added := other_groups r t (take k sorted) in
    grow_train n_train gi (seq 0 M) r t sorted train0
      = Some (train0 ++ added ≫= members gi) ∧
    (n_train ≤ length (train0 ++ added ≫= members gi) ∨ length sorted ≤ k) ∧
    (∀ before g, added = before ++ [g] →
       length (train0 ++ before ≫= members gi) < n_train).
Proof.
  induction 1 as [|g rest HgM _ IH]; intros train0; simpl.
  { exists 0. simpl. rewrite (right_id_L [] (++)). split_and!; [done|right; lia|].
    intros [|??] ? [=]. }
  case_decide as Hlen.
  { exists 0. simpl. rewrite (right_id_L [] (++)). split_and!; [done|by left|].
    intros [|??] ? [=]. }
  case_decide as Hskip.
  - destruct (IH train0) as (k & Hgrow & Hstop & Hover).
    exists (S k). simpl. unfold other_groups in *.
    rewrite filter_cons_False by tauto.
    split_and!; [done| |done]. destruct Hstop; [by left|right; lia].
  - rewrite lookup_seq_lt by done. simpl.
    destruct (IH (train0 ++ flatnonzero_eq gi g)) as (k & Hgrow & Hstop & Hover).
    exists (S k). simpl. unfold other_groups in *.
    rewrite filter_cons_True by done. simpl.
    rewrite (assoc_L (++)). split_and!; [done| |].
    + destruct Hstop; [by left|right; lia].
    + intros before g' Heq. destruct before as [|b before]; simpl in *.
      * rewrite (right_id_L [] (++)). lia.
      * injection Heq as <- Heq. rewrite (assoc_L (++)). by eapply Hover.
Qed.

Lemma maxdis_trial_groups M n_train (gi : list nat) (m : list (list Q)) t r :
  dedup_inverse M gi → square M m → 0 < M →
  anchors m = Some (t, r) →
  t < M ∧ r < M ∧
  ∃ row k,
    m !! r = Some row ∧
    let train_groups := r :: other_groups r t (take k (argsort row)) in
    let train_indices := train_groups ≫= members gi in
    trial n_train gi m
      = Some (train_indices,
              members gi t
              ++ elements (list_to_set (C:=gset nat) (seq 0 (length gi))
                           ∖ list_to_set train_indices
                           ∖ list_to_set (members gi t))) ∧
    (n_train ≤ length train_indices ∨ length (argsort row) ≤ k) ∧
    (∀ before g, train_groups = before ++ [g] → before ≠ [] →
       length (before ≫= members gi) < n_train).
Proof.
  intros Hgi Hsq HM Hanch.
  destruct (anchors_spec M m Hsq HM)
    as (t' & r' & row & v & Hanch' & Ht & Hr & Hrow & _).
  rewrite Hanch in Hanch'. injection Hanch' as <- <-.
  split_and!; [done..|].
  destruct (lookup_lt_is_Some_2 m r) as [row_r Hrow_r];
    [rewrite (proj1 Hsq); lia|].
  pose proof (argsort_row_lt _ _ _ _ Hsq Hrow_r) as Hlt.
  destruct (grow_train_groups M n_train gi r t (argsort row_r) Hlt (members gi r))
    as (k & Hgrow & Hstop & Hover).
  exists row_r, k. split; [done|]. simpl.
  unfold trial. rewrite Hanch. simpl.
  rewrite (seed_spec M) by done. simpl. rewrite Hrow_r. simpl.
  rewrite (unique_dedup_inverse M) by done. rewrite Hgrow. simpl.
  split_and!; [done..|].
  intros [|b before] g Heq Hne; [done|]. simpl in Heq. injection Heq as <- Heq.
  simpl. by eapply Hover.
Qed.
End maxdis_groups.

Section maxdis_structure.
Import Numpy Clustering MaxDissimilarity.

Lemma elem_of_groups_bind (gi groups : list nat) s :
  s ∈ groups ≫= members gi ↔ ∃ g, gi !! s = Some g ∧ g ∈ groups.
Proof.
  rewrite list_elem_of_bind. split.
  - intros (g & Hs%elem_of_flatnonzero_eq & Hg). by exists g.
  - intros (g & Hs & Hg). exists g. by rewrite elem_of_flatnonzero_eq.
Qed.

Lemma elem_of_complement (gi groups : list nat) t s :
  t ∉ groups →
  s ∈ members gi t
      ++ elements (list_to_set (C:=gset nat) (seq 0 (length gi))
                   ∖ list_to_set (groups ≫= members gi)
                   ∖ list_to_set (members gi t))
  ↔ ∃ g, gi !! s = Some g ∧ g ∉ groups.
Proof.
  intros Ht.
  rewrite elem_of_app, elem_of_elements, !elem_of_difference,
    !elem_of_list_to_set, elem_of_seq, elem_of_groups_bind.
  unfold members. rewrite elem_of_flatnonzero_eq. split.
  - intros [Hs|[[[_ Hs] Hout] _]]; [by exists t|].
    apply lookup_lt_is_Some_2 in Hs as [g Hg]. exists g. split; [done|].
    intros Hin. apply Hout. by exists g.
  - intros (g & Hs & Hg). destruct (decide (g = t)) as [->|Hgt]; [by left|right].
    apply lookup_lt_Some in Hs as Hlt. split_and!; [lia..| |congruence].
    intros (g' & Hs' & Hg'). congruence.
Qed.

Lemma elem_of_other_groups r t groups g :
  g ∈ other_groups r t groups ↔ g ≠ r ∧ g ≠ t ∧ g ∈ groups.
Proof. unfold other_groups. rewrite list_elem_of_filter. tauto. Qed.

Lemma NoDup_train_groups r t k (row : list Q) :
  NoDup (r :: other_groups r t (take k (argsort row))).
Proof.
  apply NoDup_cons. split.
  - rewrite elem_of_other_groups. tauto.
  - apply NoDup_filter. eapply sublist_NoDup; [apply NoDup_argsort|apply sublist_take].
Qed.

Lemma members_nonempty M (gi : list nat) g :
  dedup_inverse M gi → g < M → members gi g ≠ [].
Proof.
  intros Hgi Hg Hnil.
  apply (elem_of_dedup_inverse _ _ Hgi) in Hg.
  apply list_elem_of_lookup_1 in Hg as [s Hs].
  apply elem_of_flatnonzero_eq in Hs. unfold members in Hnil.
  rewrite Hnil in Hs. by apply elem_of_nil in Hs.
Qed.
End maxdis_structure.

Section maxdis_trials.
Import Numpy Clustering.

(** X8. With distinct anchors, a MaxDissimilaritySplit trial puts whole
    clusters on each side: the train array lists the members of pairwise
    distinct clusters, the train anchor among them and the test anchor not,
    and the test array holds exactly the samples of all other clusters. *)
Theorem maxdis_whole_groups M n_train gi distance_matrix test_idx train_idx :
  dedup_inverse M gi → square M distance_matrix → 0 < M →
  MaxDissimilarity.anchors distance_matrix = Some (test_idx, train_idx) →
  test_idx ≠ train_idx →
  ∃ train_indices test_indices train_groups,
    MaxDissimilarity.trial n_train gi distance_matrix
      = Some (train_indices, test_indices) ∧
    NoDup train_groups ∧ Forall (λ g, g < M) train_groups ∧
    train_idx ∈ train_groups ∧ (test_idx ∉ train_groups) ∧
    train_indices = train_groups ≫= members gi ∧
    (∀ s, s ∈ test_indices ↔ ∃ g, gi !! s = Some g ∧ g ∉ train_groups) ∧
    (∀ s u, s ∈ train_indices → u ∈ test_indices → gi !! s ≠ gi !! u).
Proof.
  intros Hgi Hsq HM Hanch Hne.
  destruct (maxdis_trial_groups M n_train gi _ _ _ Hgi Hsq HM Hanch)
    as (Ht & Hr & row & k & Hrow & Htrial & _).
  cbv zeta in Htrial.
  set (train_groups := train_idx :: other_groups train_idx test_idx
                                      (take k (argsort row))) in *.
  assert (test_idx ∉ train_groups) as Hout.
  { unfold train_groups. rewrite not_elem_of_cons, elem_of_other_groups. tauto. }
  eexists _, _, train_groups. split; [exact Htrial|].
  split_and!; [apply NoDup_train_groups| |by left|done|done| |].
  - apply Forall_cons. split; [done|].
    apply Forall_forall. intros g (_ & _ & Hg)%elem_of_other_groups.
    apply (subseteq_take k (argsort row)) in Hg.
    pose proof (argsort_row_lt _ _ _ _ Hsq Hrow) as Hlt.
    rewrite Forall_forall in Hlt. by apply Hlt.
  - intros s. by apply elem_of_complement.
  - intros s u (g & Hs & Hg)%elem_of_groups_bind Hu Heq.
    apply elem_of_complement in Hu as (h & Hu & Hh); [|done]. congruence.
Qed.

Lemma maxdis_whole_groups_witness :
  ∃ train_indices test_indices train_groups,
    MaxDissimilarity.trial 8 line_groups line_distances
      = Some (train_indices, test_indices) ∧
    NoDup train_groups ∧ Forall (λ g, g < 3) train_groups ∧
    0 ∈ train_groups ∧ (2 ∉ train_groups) ∧
    train_indices = train_groups ≫= members line_groups ∧
    (∀ s, s ∈ test_indices
          ↔ ∃ g, line_groups !! s = Some g ∧ g ∉ train_groups) ∧
    (∀ s u, s ∈ train_indices → u ∈ test_indices →
       line_groups !! s ≠ line_groups !! u).
Proof.
  apply (maxdis_whole_groups 3 8 line_groups line_distances 2 0);
    [(vm_compute; repeat constructor)..|lia].
Defined.

(** X9. With distinct anchors, the train array reaches the target [n_train]
    unless only the cluster of the test anchor is left for the test array;
    it is the cluster of the train anchor alone, or it ends with a cluster
    that was added while the array was still below the target. *)
Theorem maxdis_train_target M n_train gi distance_matrix test_idx train_idx :
  dedup_inverse M gi → square M distance_matrix → 0 < M →
  MaxDissimilarity.anchors distance_matrix = Some (test_idx, train_idx) →
  test_idx ≠ train_idx →
  ∃ train_indices test_indices,
    MaxDissimilarity.trial n_train gi distance_matrix
      = Some (train_indices, test_indices) ∧
    (n_train ≤ length train_indices ∨
     ∀ s, s ∈ test_indices ↔ gi !! s = Some test_idx) ∧
    (train_indices = members gi train_idx ∨
     ∃ before g, g < M ∧ g ≠ train_idx ∧ g ≠ test_idx ∧
       train_indices = before ++ members gi g ∧
       length before < n_train).
Proof.
  intros Hgi Hsq HM Hanch Hne.
  destruct (maxdis_trial_groups M n_train gi _ _ _ Hgi Hsq HM Hanch)
    as (Ht & Hr & row & k & Hrow & Htrial & Hstop & Hover).
  cbv zeta in Htrial, Hstop, Hover.
  set (added := other_groups train_idx test_idx (take k (argsort row))) in *.
  assert (test_idx ∉ train_idx :: added) as Hout.
  { unfold added. rewrite not_elem_of_cons, elem_of_other_groups. tauto. }
  pose proof (argsort_row_lt _ _ _ _ Hsq Hrow) as Hlt.
  eexists _, _. split; [exact Htrial|]. split.
  - destruct Hstop as [Hlen|Hall]; [by left|right].
    intros s. rewrite elem_of_complement by done. split.
    + intros (g & Hs & Hg). rewrite Hs. f_equal.
      destruct (decide (g = test_idx)) as [|Hgt]; [done|exfalso].
      apply Hg. rewrite elem_of_cons.
      destruct (decide (g = train_idx)) as [|Hgr]; [by left|right].
      apply elem_of_other_groups. split_and!; [done..|].
      rewrite take_ge by done. rewrite argsort_perm, elem_of_seq.
      destruct Hsq as [_ Hrows]. rewrite Forall_forall in Hrows.
      rewrite (Hrows row) by (by eapply list_elem_of_lookup_2).
      apply (lookup_dedup_inverse M) in Hs; [lia|done].
    + intros Hs. by exists test_idx.
  - destruct (decide (added = [])) as [Hnil|Hnil].
    { left. rewrite Hnil. simpl. by rewrite (right_id_L [] (++)). }
    right. destruct (exists_last Hnil) as (before & g & Hadded).
    assert (g ∈ added) as Hg
      by (rewrite Hadded, elem_of_app, list_elem_of_singleton; by right).
    apply elem_of_other_groups in Hg as (Hgr & Hgt & Hg).
    apply (subseteq_take k (argsort row)) in Hg.
    rewrite Forall_forall in Hlt.
    exists ((train_idx :: before) ≫= members gi), g.
    split_and!; [by apply Hlt|done..| |].
    + rewrite Hadded. simpl. rewrite bind_app. simpl.
      by rewrite (right_id_L [] (++)), (assoc_L (++)).
    + apply (Hover _ g); [by rewrite Hadded|done].
Qed.

Lemma maxdis_train_target_witness :
  ∃ train_indices test_indices,
    MaxDissimilarity.trial 8 line_groups line_distances
      = Some (train_indices, test_indices) ∧
    (8 ≤ length train_indices ∨
     ∀ s, s ∈ test_indices ↔ line_groups !! s = Some 2) ∧
    (train_indices = members line_groups 0 ∨
     ∃ before g, g < 3 ∧ g ≠ 0 ∧ g ≠ 2 ∧
       train_indices = before ++ members line_groups g ∧
       length before < 8).
Proof.
  apply (maxdis_train_target 3 8 line_groups line_distances 2 0);
    [(vm_compute; repeat constructor)..|lia].
Defined.

(** X10. With distinct anchors, the train array is grown by the clusters
    nearest to the train anchor: every cluster in the train array, other
    than the train anchor, is at most as far from the train anchor as every
    cluster in the test array, other than the test anchor. *)
Theorem maxdis_train_nearest_first M n_train gi distance_matrix
    test_idx train_idx :
  dedup_inverse M gi → square M distance_matrix → 0 < M →
  MaxDissimilarity.anchors distance_matrix = Some (test_idx, train_idx) →
  test_idx ≠ train_idx →
  ∃ train_indices test_indices row,
    MaxDissimilarity.trial n_train gi distance_matrix
      = Some (train_indices, test_indices) ∧
    distance_matrix !! train_idx = Some row ∧
    ∀ s u g h, s ∈ train_indices → u ∈ test_indices →
      gi !! s = Some g → gi !! u = Some h →
      g ≠ train_idx → h ≠ test_idx →
      ∃ x y, row !! g = Some x ∧ row !! h = Some y ∧ (x <= y)%Q.
Proof.
  intros Hgi Hsq HM Hanch Hne.
  destruct (maxdis_trial_groups M n_train gi _ _ _ Hgi Hsq HM Hanch)
    as (Ht & Hr & row & k & Hrow & Htrial & _).
  cbv zeta in Htrial.
  set (added := other_groups train_idx test_idx (take k (argsort row))) in *.
  assert (test_idx ∉ train_idx :: added) as Hout.
  { unfold added. rewrite not_elem_of_cons, elem_of_other_groups. tauto. }
  eexists _, _, row. split; [exact Htrial|]. split; [done|].
  intros s u g h (g' & Hs' & Hg)%elem_of_groups_bind Hu Hs Hh Hgr Hht.
  assert (g' = g) as -> by congruence.
  apply elem_of_complement in Hu as (h' & Hu' & Hhout); [|done].
  assert (h' = h) as -> by congruence.
  apply elem_of_cons in Hg as [->|Hg]; [done|].
  apply elem_of_other_groups in Hg as (_ & _ & Hg).
  assert (h ∈ drop k (argsort row)) as Hdrop.
  { assert (h ∈ take k (argsort row) ++ drop k (argsort row))
      as [Hin|Hin]%elem_of_app; [|exfalso|done].
    - rewrite take_drop, argsort_perm, elem_of_seq.
      destruct Hsq as [_ Hrows]. rewrite Forall_forall in Hrows.
      rewrite (Hrows row) by (by eapply list_elem_of_lookup_2).
      apply (lookup_dedup_inverse M) in Hh; [lia|done].
    - apply Hhout. right. apply elem_of_other_groups. split_and!; [|done..].
      intros ->. apply Hhout. by left. }
  pose proof (argsort_sorted row) as Hsorted.
  rewrite <-(take_drop k (argsort row)) in Hsorted.
  destruct (StronglySorted_app_1_elem_of _ _ _ g h Hsorted Hg Hdrop)
    as (x & y & ? & ? & ?).
  by exists x, y.
Qed.

Lemma maxdis_train_nearest_first_witness :
  ∃ train_indices test_indices row,
    MaxDissimilarity.trial 3 four_groups four_distances
      = Some (train_indices, test_indices) ∧
    four_distances !! 0 = Some row ∧
    ∀ s u g h, s ∈ train_indices → u ∈ test_indices →
      four_groups !! s = Some g → four_groups !! u = Some h →
      g ≠ 0 → h ≠ 3 →
      ∃ x y, row !! g = Some x ∧ row !! h = Some y ∧ (x <= y)%Q.
Proof.
  apply (maxdis_train_nearest_first 4 3 four_groups four_distances 3 0);
    [(vm_compute; repeat constructor)..|lia].
Defined.

(** X11. A MaxDissimilaritySplit trial never returns an empty array, whatever
    the target: the clusters of the two anchors are never empty. *)
Theorem maxdis_both_sides_nonempty M n_train gi distance_matrix :
  dedup_inverse M gi → square M distance_matrix → 0 < M →
  ∃ train_indices test_indices,
    MaxDissimilarity.trial n_train gi distance_matrix
      = Some (train_indices, test_indices) ∧
    train_indices ≠ [] ∧ test_indices ≠ [].
Proof.
  intros Hgi Hsq HM.
  destruct (maxdis_trial_total M n_train gi _ Hgi Hsq HM)
    as (t & r & train & test & Hanch & Htrial & [k1 ->] & [k2 ->]).
  destruct (anchors_spec M _ Hsq HM)
    as (t' & r' & _ & _ & Hanch' & Ht & Hr & _).
  rewrite Hanch in Hanch'. injection Hanch' as <- <-.
  eexists _, _. split; [done|].
  pose proof (members_nonempty M gi r Hgi Hr).
  pose proof (members_nonempty M gi t Hgi Ht).
  split; intros [? _]%app_eq_nil; done.
Qed.

Lemma maxdis_both_sides_nonempty_witness :
  ∃ train_indices test_indices,
    MaxDissimilarity.trial 0 line_groups line_distances
      = Some (train_indices, test_indices) ∧
    train_indices ≠ [] ∧ test_indices ≠ [].
Proof.
  apply (maxdis_both_sides_nonempty 3 0 line_groups line_distances);
    vm_compute; repeat constructor.
Defined.
End maxdis_trials.

Section coverage_witnesses.
Import Numpy Clustering.

Lemma perimeter_iter_indices_coverage_witness :
  Forall (λ yielded, ∃ train_indices test_indices,
            yielded = Some (train_indices, test_indices) ∧
            merge_sort (≤) (train_indices ++ test_indices) = seq 0 10)
    (Perimeter._iter_indices 5 2 (λ _, (line_groups, line_distances))).
Proof.
  apply (perimeter_iter_indices_coverage 5 2
           (λ _, (line_groups, line_distances)) 10).
  intros i _. split; [reflexivity|].
  exists 3. split; vm_compute; repeat constructor.
Defined.

Lemma positive_off_diagonal_line : positive_off_diagonal line_distances.
Proof.
  intros i j x Hne Hx.
  destruct i as [|[|[|i]]]; destruct j as [|[|[|j]]]; try done;
    vm_compute in Hx; try done; injection Hx as <-; done.
Qed.

Lemma maxdis_coverage_witness :
  ∃ train_indices test_indices,
    MaxDissimilarity.trial 8 line_groups line_distances
      = Some (train_indices, test_indices) ∧
    train_indices ++ test_indices ≡ₚ seq 0 (length line_groups) ∧
    merge_sort (≤) (train_indices ++ test_indices)
      = seq 0 (length line_groups).
Proof.
  apply (maxdis_coverage 3 8 line_groups line_distances);
    [(vm_compute; repeat constructor)..|apply positive_off_diagonal_line|lia].
Defined.
End coverage_witnesses.

(** ** [SplitCharacterization] *)
Section characterization_facts.
Import Prescriber.
Local Open Scope R_scope.

Lemma remove_dups_singleton {A} `{EqDecision A} (l : list A) x :
  remove_dups l = [x] → l ≠ [] ∧ Forall (λ y, y = x) l.
Proof.
  intros Hl. split.
  - intros ->. discriminate Hl.
  - apply Forall_forall. intros y Hy%elem_of_remove_dups.
    rewrite Hl in Hy. by apply list_elem_of_singleton in Hy.
Qed.

Lemma remove_dups_nil {A} `{EqDecision A} (l : list A) :
  remove_dups l = [] → l = [].
Proof.
  intros Hl. destruct l as [|x l]; [done|].
  assert (x ∈ remove_dups (x :: l)) as Hx by (apply elem_of_remove_dups; by left).
  rewrite Hl in Hx. by apply elem_of_nil in Hx.
Qed.

Lemma remove_dups_two {A} `{EqDecision A} (l : list A) a b r :
  remove_dups l = a :: b :: r → a ∈ l ∧ b ∈ l ∧ a ≠ b.
Proof.
  intros Hl. pose proof (NoDup_remove_dups l) as Hnd.
  rewrite <-!(elem_of_remove_dups l), Hl. rewrite Hl in Hnd.
  split_and!; [by left|by right; left|].
  intros ->. apply NoDup_cons in Hnd as [Hnd _]. apply Hnd. by left.
Qed.

Lemma foldl_best_nan rest cur :
  representativeness cur = None →
  foldl (λ cur spl,
           if float_lt (representativeness cur) (representativeness spl)
           then spl else cur) cur rest = cur.
Proof.
  intros Hnan. induction rest as [|s rest IH]; simpl; [done|].
  rewrite Hnan. simpl. exact IH.
Qed.

Lemma foldl_best_number rest :
  ∀ cur x, representativeness cur = Some x →
  let chosen :=
    foldl (λ cur spl,
             if float_lt (representativeness cur) (representativeness spl)
             then spl else cur) cur rest in
  ∃ (i : nat) y,
    (cur :: rest) !! i = Some chosen ∧
    representativeness chosen = Some y ∧
    (∀ c z, c ∈ cur :: rest → representativeness c = Some z → z <= y) ∧
    (∀ (j : nat) c z, (j < i)%nat → (cur :: rest) !! j = Some c →
       representativeness c = Some z → z < y).
Proof.
  induction rest as [|s rest IH]; intros cur x Hx; simpl.
  { exists 0%nat, x. split_and!; [done..| |intros; lia].
    intros c z ->%list_elem_of_singleton Hz.
    assert (z = x) as -> by congruence. lra. }
  destruct (float_lt (representativeness cur) (representativeness s)) eqn:Hlt.
  - rewrite Hx in Hlt. destruct (representativeness s) as [z0|] eqn:Hs; [|done].
    simpl in Hlt. destruct (Rlt_dec x z0) as [Hxz|]; [|done].
    destruct (IH s z0 Hs) as (i & y & Hi & Hy & Hmax & Hfirst).
    assert (z0 <= y) as Hz0 by (apply (Hmax s); [by left|done]).
    exists (S i), y. split_and!; [done..| |].
    + intros c z [->|Hc]%elem_of_cons Hz; [|by eapply Hmax].
      assert (z = x) as -> by congruence. lra.
    + intros [|j] c z Hj Hc Hz; simpl in Hc.
      * injection Hc as <-. assert (z = x) as -> by congruence. lra.
      * eapply (Hfirst j); [lia|done..].
  - assert (∀ z, representativeness s = Some z → z <= x) as Hsx.
    { intros z Hz. rewrite Hx, Hz in Hlt. simpl in Hlt.
      destruct (Rlt_dec x z); [done|lra]. }
    destruct (IH cur x Hx) as (i & y & Hi & Hy & Hmax & Hfirst).
    assert (x <= y) as Hxy by (apply (Hmax cur); [by left|done]).
    assert (∀ c z, c ∈ cur :: s :: rest → representativeness c = Some z →
                   z <= y) as Hmax'.
    { intros c z [->|[->|Hc]%elem_of_cons]%elem_of_cons Hz.
      - apply (Hmax cur); [by left|done].
      - specialize (Hsx z Hz). lra.
      - apply (Hmax c); [by right|done]. }
    destruct i as [|i].
    + exists 0%nat, y. split_and!; [done..|intros; lia].
    + exists (S (S i)), y. split_and!; [done..|].
      assert (x < y) as Hlt' by (apply (Hfirst 0%nat cur); [lia|done..]).
      intros [|[|j]] c z Hj Hc Hz; simpl in Hc.
      * injection Hc as <-. assert (z = x) as -> by congruence. done.
      * injection Hc as <-. specialize (Hsx z Hz). lra.
      * apply (Hfirst (S j) c); [lia|done..].
Qed.

Lemma concat_ok np_mean splits c :
  concat np_mean splits = Ok c →
  splits ≠ [] ∧ Forall (λ s, label s = label c) splits.
Proof.
  unfold concat.
  destruct (remove_dups (label <$> splits)) as [|name [|other rest]] eqn:Hnames;
    [done| |done].
  intros [= <-]. simpl.
  apply remove_dups_singleton in Hnames as [Hne Hall].
  split; [by intros ->|]. by apply Forall_fmap in Hall.
Qed.

Lemma best_elem_of splits chosen : best splits = Ok chosen → chosen ∈ splits.
Proof.
  destruct splits as [|spl rest]; [done|]. simpl. intros [= <-].
  destruct (representativeness spl) as [x|] eqn:Hx.
  - destruct (foldl_best_number rest spl x Hx) as (i & _ & Hi & _).
    by eapply list_elem_of_lookup_2.
  - rewrite foldl_best_nan by done. by left.
Qed.
End characterization_facts.

Section characterization_properties.
Import Prescriber.
Local Open Scope R_scope.

(** X12. [SplitCharacterization.best] raises on an empty list.  On any other
    list, when the score of the first element is NaN, it returns the first
    element; when that score is a number, it returns the first of the
    elements whose score is the largest of the scores that are numbers, and
    NaN scores further down the list are passed over. *)
Theorem best_first_maximal splits :
  match best splits with
  | Raise e => splits = [] ∧ e = ValueError
  | Ok chosen =>
      ∃ first, head splits = Some first ∧
        match representativeness first with
        | None => chosen = first
        | Some _ =>
            ∃ (i : nat) y,
              splits !! i = Some chosen ∧
              representativeness chosen = Some y ∧
              (∀ c z, c ∈ splits → representativeness c = Some z → z <= y) ∧
              (∀ (j : nat) c z, (j < i)%nat → splits !! j = Some c →
                 representativeness c = Some z → z < y)
        end
  end.
Proof.
  destruct splits as [|spl rest]; simpl; [done|].
  exists spl. split; [done|].
  destruct (representativeness spl) as [x|] eqn:Hx.
  - exact (foldl_best_number rest spl x Hx).
  - by apply foldl_best_nan.
Qed.

(** X13. [SplitCharacterization.concat] returns exactly when the list is not
    empty and all labels agree: the result carries that label, the
    concatenated distances and the [np.mean] of the scores.  Otherwise,
    also on an empty list, it raises the [RuntimeError]. *)
Theorem concat_equally_labeled (np_mean : list float → float) splits :
  match concat np_mean splits with
  | Ok c =>
      splits ≠ [] ∧ Forall (λ s, label s = label c) splits ∧
      distances c = mjoin (distances <$> splits) ∧
      representativeness c = np_mean (representativeness <$> splits)
  | Raise e =>
      e = RuntimeError
            "Can only concatenate equally labeled split characterizations" ∧
      (splits = [] ∨ ∃ a b, a ∈ splits ∧ b ∈ splits ∧ label a ≠ label b)
  end.
Proof.
  unfold concat.
  destruct (remove_dups (label <$> splits)) as [|name [|other rest]] eqn:Hnames.
  - split; [done|left]. apply remove_dups_nil in Hnames.
    by apply fmap_nil_inv in Hnames.
  - apply remove_dups_singleton in Hnames as [Hne Hall]. simpl.
    assert (splits ≠ []) as Hne' by (intros ->; done).
    split_and!; [done| |done..].
    by apply Forall_fmap in Hall.
  - split; [done|right].
    apply remove_dups_two in Hnames
      as ((a & -> & Ha)%list_elem_of_fmap & (b & -> & Hb)%list_elem_of_fmap & Hab).
    by exists a, b.
Qed.
End characterization_properties.

(** ** [MOODSplitter] *)
Section prescriber_fit_facts.
Import Prescriber.
Context {Row Axes : Type}.
Variable knn_mean_distance :
  string → nat → nat → option (list Row) → list Row → result (list R).
Variable score_representativeness : list R → list R → result float.
Variable np_mean : list float → float.
Variable rank : list float → result (list float).
Variable visualize : list R → list SplitCharacterization → result Axes.

Abbreviation _compute_distance := (_compute_distance knn_mean_distance).
Abbreviation characterize_trials :=
  (characterize_trials knn_mean_distance score_representativeness).
Abbreviation characterize_splitters :=
  (characterize_splitters knn_mean_distance score_representativeness np_mean).
Abbreviation fit :=
  (fit knn_mean_distance score_representativeness np_mean rank visualize).
Abbreviation fit_with :=
  (fit_with knn_mean_distance score_representativeness np_mean rank visualize).

Lemma characterize_trials_ok (self : MOODSplitter (Row:=Row)) name d X trials :
  ∀ chars0 chars,
    characterize_trials self name d X trials chars0 = Ok chars →
    ∃ new, chars = chars0 ++ new ∧ Forall (λ c, label c = name) new ∧
      length new = length trials ∧
      Forall (λ trial, ∃ indices, trial = Ok indices) trials.
Proof.
  induction trials as [|trial trials IH]; intros chars0 chars; simpl.
  { intros [= <-]. exists []. by rewrite app_nil_r. }
  destruct trial as [[train test]|e]; simpl; [|done].
  destruct (take_rows X test) as [X_test|]; simpl; [|done].
  destruct (take_rows X train) as [X_train|]; simpl; [|done].
  destruct (_compute_distance self (Some X_test) X_train)
    as [dist|]; simpl; [|done].
  destruct (score_representativeness d dist) as [score|]; simpl; [|done].
  intros (new & -> & Hlabel & Hlen & Hok)%IH.
  eexists (_ :: new). rewrite <-(assoc_L (++)). split_and!; [done| | |].
  - by constructor.
  - simpl. by rewrite Hlen.
  - constructor; [by eexists|done].
Qed.

Lemma characterize_splitters_ok (self : MOODSplitter (Row:=Row)) d X items :
  ∀ acc split_chars,
    characterize_splitters self d X items acc = Ok split_chars →
    ∃ new, split_chars = acc ++ new ∧ label <$> new = items.*1 ∧
      Forall (λ item, split item.2 X ≠ [] ∧
                Forall (λ trial, ∃ indices, trial = Ok indices)
                  (split item.2 X)) items.
Proof.
  induction items as [|[name splitter] items IH]; intros acc split_chars; simpl.
  { intros [= <-]. exists []. by rewrite app_nil_r. }
  destruct (characterize_trials self name d X (split splitter X) [])
    as [chars|] eqn:Hchars; simpl; [|done].
  apply characterize_trials_ok in Hchars as (new & -> & Hlabel & Hlen & Hok).
  rewrite app_nil_l.
  destruct (concat np_mean new) as [char|] eqn:Hconcat; simpl; [|done].
  apply concat_ok in Hconcat as [Hne Hall].
  intros (rest & -> & Hrest & Hitems)%IH.
  exists (char :: rest). rewrite <-(assoc_L (++)). split_and!; [done| |].
  - rewrite fmap_cons, Hrest. f_equal.
    destruct new as [|c new]; [done|].
    apply Forall_cons_1 in Hall as [<- _].
    by apply Forall_cons_1 in Hlabel as [-> _].
  - constructor; [|done]. simpl. split; [|done].
    intros Hnil. rewrite Hnil in Hlen. by destruct new.
Qed.

Lemma getitem_elem_of (items : list (string * Splitter (Row:=Row))) name :
  name ∈ items.*1 →
  ∃ splitter, getitem items name = Ok splitter ∧ (name, splitter) ∈ items.
Proof.
  induction items as [|[name' splitter] items IH]; simpl.
  { by intros ?%elem_of_nil. }
  intros Hin. case_decide as Heq.
  - subst. exists splitter. split; [done|by left].
  - apply elem_of_cons in Hin as [->|Hin]; [done|].
    destruct (IH Hin) as (sp & ? & ?). exists sp. split; [done|by right].
Qed.

Lemma fit_with_ok X d plot (self self' : MOODSplitter (Row:=Row)) ret :
  fit_with X d plot self = (Ok ret, self') →
  ∃ split_chars chosen,
    characterize_splitters self d X (_splitters self) [] = Ok split_chars ∧
    best split_chars = Ok chosen ∧
    self' = set_prescription split_chars (label chosen) self.
Proof.
  unfold Prescriber.fit_with.
  destruct (Prescriber.characterize_splitters _ _ _ _ _ _ _ _)
    as [split_chars|]; [|done].
  destruct (best split_chars) as [chosen|] eqn:Hbest; [|done].
  intros [= _ <-]. by exists split_chars, chosen.
Qed.

Lemma fit_ok X X_deployment plot (self self' : MOODSplitter (Row:=Row)) ret :
  fit X X_deployment plot self = (Ok ret, self') →
  ∃ d split_chars chosen,
    (_downstream_distances self = Some d ∨
     _downstream_distances self = None ∧
     _compute_distance self X_deployment X = Ok d) ∧
    characterize_splitters self d X (_splitters self) [] = Ok split_chars ∧
    best split_chars = Ok chosen ∧
    self' = set_prescription split_chars (label chosen)
              (set_downstream_distances d self).
Proof.
  rewrite fit_unfold. destruct (_downstream_distances self) as [d|] eqn:Hd.
  - intros (split_chars & chosen & Hchars & Hbest & ->)%fit_with_ok.
    exists d, split_chars, chosen. split_and!; [by left|done..|].
    destruct self. simpl in *. by subst.
  - destruct (_compute_distance _ _ _) as [d|] eqn:Hdist; [|done].
    intros (split_chars & chosen & Hchars & Hbest & ->)%fit_with_ok.
    exists d, split_chars, chosen. split_and!; [by right|  |done..].
    rewrite <-Hchars. by apply characterize_splitters_self.
Qed.
End prescriber_fit_facts.

Section prescriber_properties.
Import Prescriber.

(** X14. [MOODSplitter.__init__] returns exactly when there is at least one
    candidate and all candidates report the same [n_splits]; the new
    splitter stores that number and its arguments and is not fitted.
    Otherwise, also without any candidate, it raises the [TypeError] on
    inconsistent [n_splits]. *)
Theorem init_consistent_n_splits {Row}
    (splitters : list (string * Splitter (Row:=Row)))
    (downstream_distances : option (list R)) (metric : string) (p k : nat) :
  match __init__ splitters downstream_distances metric p k with
  | Ok self =>
      splitters ≠ [] ∧
      Forall (λ item, get_n_splits item.2 = _n_splits self) splitters ∧
      _splitters self = splitters ∧
      _downstream_distances self = downstream_distances ∧
      _metric self = metric ∧ _p self = p ∧ _k self = k ∧
      _split_chars self = None ∧ fitted self = false
  | Raise e =>
      e = TypeError "n_splits is inconsistent across the different splitters" ∧
      (splitters = [] ∨
       ∃ a b, a ∈ splitters ∧ b ∈ splitters ∧
         get_n_splits a.2 ≠ get_n_splits b.2)
  end.
Proof.
  unfold __init__.
  destruct (remove_dups ((λ item, get_n_splits item.2) <$> splitters))
    as [|n [|m rest]] eqn:Hdups; simpl.
  - split; [done|left]. apply remove_dups_nil in Hdups.
    by apply fmap_nil_inv in Hdups.
  - apply remove_dups_singleton in Hdups as [Hne Hall].
    destruct splitters as [|item splitters]; [done|]. simpl.
    split_and!; try done.
    apply Forall_fmap in Hall. simpl in Hall.
    apply Forall_cons_1 in Hall as Hall'. destruct Hall' as [Hitem _].
    simpl in Hitem. rewrite Hitem. done.
  - split; [done|right].
    apply remove_dups_two in Hdups
      as ((a & Ha & Hina)%list_elem_of_fmap
          & (b & Hb & Hinb)%list_elem_of_fmap & Hab).
    exists a, b. split_and!; [done..|congruence].
Qed.

(** X15. A [fit] that returns has characterised every candidate, in order and
    under its own name, and prescribes the label that
    [SplitCharacterization.best] picks among them: the splitter is fitted,
    the prescribed splitter is a candidate registered under that label, and
    [_iter_indices] yields the trials of that candidate.  Every candidate
    has yielded at least one trial, none of which raised; the candidates and
    the parameters of the distance are unchanged. *)
Theorem fit_prescribes_best {Row Axes}
    (knn_mean_distance :
       string → nat → nat → option (list Row) → list Row → result (list R))
    (score_representativeness : list R → list R → result float)
    (np_mean : list float → float)
    (rank : list float → result (list float))
    (visualize : list R → list SplitCharacterization → result Axes)
    (X : list Row) (X_deployment : option (list Row)) (plot : bool)
    (self self' : MOODSplitter) (ret : option Axes) :
  fit knn_mean_distance score_representativeness np_mean rank visualize
    X X_deployment plot self = (Ok ret, self') →
  ∃ d split_chars chosen splitter,
    _downstream_distances self' = Some d ∧
    characterize_splitters knn_mean_distance score_representativeness np_mean
      self d X (_splitters self) [] = Ok split_chars ∧
    _split_chars self' = Some split_chars ∧
    label <$> split_chars = (_splitters self).*1 ∧
    best split_chars = Ok chosen ∧
    fitted self' = true ∧
    prescribed_splitter_label self' = Ok (label chosen) ∧
    (label chosen, splitter) ∈ _splitters self ∧
    get_prescribed_splitter self' = Ok splitter ∧
    (∀ X', _iter_indices self' X' = Ok (split splitter X')) ∧
    Forall (λ item, split item.2 X ≠ [] ∧
              Forall (λ trial, ∃ indices, trial = Ok indices)
                (split item.2 X)) (_splitters self) ∧
    _splitters self' = _splitters self ∧ _n_splits self' = _n_splits self ∧
    _metric self' = _metric self ∧ _p self' = _p self ∧ _k self' = _k self.
Proof.
  intros (d & split_chars & chosen & _ & Hchars & Hbest & ->)%fit_ok.
  pose proof Hchars as Hchars'.
  apply characterize_splitters_ok in Hchars' as (new & -> & Hlabels & Hitems).
  rewrite app_nil_l in *.
  assert (label chosen ∈ (_splitters self).*1) as Hin.
  { rewrite <-Hlabels. apply list_elem_of_fmap. exists chosen.
    split; [done|]. by apply best_elem_of. }
  apply getitem_elem_of in Hin as (splitter & Hget & Hin).
  exists d, new, chosen, splitter.
  assert (fitted (set_prescription new (label chosen)
                    (set_downstream_distances d self)) = true) as Hfitted.
  { unfold fitted. by apply bool_decide_eq_true. }
  assert (prescribed_splitter_label
            (set_prescription new (label chosen)
               (set_downstream_distances d self)) = Ok (label chosen))
    as Hlabel.
  { unfold prescribed_splitter_label. by rewrite Hfitted. }
  assert (get_prescribed_splitter
            (set_prescription new (label chosen)
               (set_downstream_distances d self)) = Ok splitter) as Hsplitter.
  { unfold get_prescribed_splitter. rewrite Hlabel. simpl. exact Hget. }
  split_and!; try done.
  intros X'. unfold _iter_indices. rewrite Hfitted, Hsplitter. done.
Qed.

Lemma fit_prescribes_best_witness :
  ∃ d split_chars chosen splitter,
    _downstream_distances ready_prescriber_fitted = Some d ∧
    characterize_splitters line_knn sample_score sample_mean
      ready_prescriber d line_rows (_splitters ready_prescriber) []
      = Ok split_chars ∧
    _split_chars ready_prescriber_fitted = Some split_chars ∧
    label <$> split_chars = (_splitters ready_prescriber).*1 ∧
    best split_chars = Ok chosen ∧
    fitted ready_prescriber_fitted = true ∧
    prescribed_splitter_label ready_prescriber_fitted = Ok (label chosen) ∧
    (label chosen, splitter) ∈ _splitters ready_prescriber ∧
    get_prescribed_splitter ready_prescriber_fitted = Ok splitter ∧
    (∀ X', _iter_indices ready_prescriber_fitted X' = Ok (split splitter X')) ∧
    Forall (λ item, split item.2 line_rows ≠ [] ∧
              Forall (λ trial, ∃ indices, trial = Ok indices)
                (split item.2 line_rows)) (_splitters ready_prescriber) ∧
    _splitters ready_prescriber_fitted = _splitters ready_prescriber ∧
    _n_splits ready_prescriber_fitted = _n_splits ready_prescriber ∧
    _metric ready_prescriber_fitted = _metric ready_prescriber ∧
    _p ready_prescriber_fitted = _p ready_prescriber ∧
    _k ready_prescriber_fitted = _k ready_prescriber.
Proof.
  apply (fit_prescribes_best line_knn sample_score sample_mean sample_rank
           no_display line_rows (Some line_deployment) false
           ready_prescriber ready_prescriber_fitted None).
  reflexivity.
Defined.
End prescriber_properties.
